(** * validateBankAccount: a shallow embedding of the Lambda handler

    The program under study is [validateBankAccount/main.go]: a request
    handler that decodes a JSON payload, selects data providers by name,
    asks every selected provider over HTTP whether an account number is
    valid, and gathers the verdicts through a channel.

    The development has three layers:
    - [Json]: the fragment of Go's [encoding/json] the handler relies on
      (syntax, string unquoting, struct decoding, encoding);
    - [Main]: the functions of [main.go], one definition per function,
      with goroutines, the channel and the wait group as a small-step
      machine driven by a schedule;
    - the theorems about them. *)

From Stdlib Require Import String Ascii List NArith Bool Lia.
From stdpp Require Import gmap strings list fin_maps.

Set Warnings "-register-all,-clear-no-such-hyp".

Open Scope string_scope.
Open Scope list_scope.

(** ** Bytes and UTF-8

    A Go [string] or [[]byte] is a sequence of bytes: Rocq's [string] of
    [ascii] is exactly that. *)

Module Bytes.

Definition code (c : ascii) : N := N_of_ascii c.

Definition byte (n : N) : ascii := ascii_of_N n.

Definition between (lo hi : N) (c : ascii) : bool :=
  ((lo <=? code c) && (code c <=? hi))%N.

Definition dq : ascii := "034"%char.
Definition backslash : ascii := "092"%char.

(** [quoted s] is [s] between two double quotes, with no escaping. *)
Definition quoted (s : string) : string :=
  String dq (s +:+ String dq EmptyString).

Definition continuation : ascii -> bool := between 128 191.

(** [utf8.DecodeRune], as far as its callers here need it: the width of the
    well-formed UTF-8 sequence that starts with byte [c] followed by
    [rest], or [0] when there is none (Go then reports [RuneError] with
    width one). Only called with [c >= 0x80]. *)
Definition utf8_width (c : ascii) (rest : string) : nat :=
  match rest with
  | String c1 rest1 =>
      if between 194 223 c then (if continuation c1 then 2 else 0)
      else
        let second :=
          if (code c =? 224)%N then between 160 191 c1
          else if (code c =? 237)%N then between 128 159 c1
          else if (code c =? 240)%N then between 144 191 c1
          else if (code c =? 244)%N then between 128 143 c1
          else continuation c1 in
        match rest1 with
        | String c2 rest2 =>
            if between 224 239 c then
              (if second && continuation c2 then 3 else 0)
            else if between 240 244 c then
              match rest2 with
              | String c3 _ =>
                  if second && continuation c2 && continuation c3
                  then 4 else 0
              | EmptyString => 0
              end
            else 0
        | EmptyString => 0
        end
  | EmptyString => 0
  end.

(** [utf8.EncodeRune] for a rune that is no surrogate and at most
    U+10FFFF. *)
Definition utf8_encode (r : N) : string :=
  (if r <? 128 then String (byte r) EmptyString
   else if r <? 2048 then
     String (byte (192 + r / 64))
       (String (byte (128 + r mod 64)) EmptyString)
   else if r <? 65536 then
     String (byte (224 + r / 4096))
       (String (byte (128 + (r / 64) mod 64))
          (String (byte (128 + r mod 64)) EmptyString))
   else
     String (byte (240 + r / 262144))
       (String (byte (128 + (r / 4096) mod 64))
          (String (byte (128 + (r / 64) mod 64))
             (String (byte (128 + r mod 64)) EmptyString))))%N.

(** U+FFFD, [unicode.ReplacementChar]. *)
Definition replacement : N := 65533.

Definition hex_value (c : ascii) : option N :=
  (if between 48 57 c then Some (code c - 48)
   else if between 97 102 c then Some (code c - 87)
   else if between 65 70 c then Some (code c - 55)
   else None)%N.

(** [getu4] of [decode.go] on the four bytes after a backslash and [u]. *)
Definition getu4 (a b c d : ascii) : option N :=
  match hex_value a, hex_value b, hex_value c, hex_value d with
  | Some x, Some y, Some z, Some w => Some (((x * 16 + y) * 16 + z) * 16 + w)%N
  | _, _, _, _ => None
  end.

Definition hex_digit (n : N) : ascii :=
  (if n <? 10 then byte (48 + n) else byte (87 + n))%N.

End Bytes.

(** ** The fragment of [encoding/json] used by the handler *)

Module Json.
Import Bytes.

(** A JSON text after [checkValid]: numbers keep their literal, strings
    are unquoted, objects keep their members in source order (the
    decoder visits them in that order, so duplicates matter). *)
Inductive value : Type :=
| Null
| Bool (b : bool)
| Number (literal : string)
| Str (s : string)
| Array (elements : list value)
| Object (members : list (string * value)).

Inductive scanned (A : Type) : Type :=
| Scanned (a : A) (rest : string)
| Malformed
| Exhausted.
Arguments Scanned {A} a rest.
Arguments Malformed {A}.
Arguments Exhausted {A}.

Definition is_space (c : ascii) : bool :=
  (code c =? 32)%N || (code c =? 9)%N || (code c =? 13)%N || (code c =? 10)%N.

Fixpoint skip_space (s : string) : string :=
  match s with
  | String c rest => if is_space c then skip_space rest else s
  | EmptyString => s
  end.

Definition is_digit : ascii -> bool := between 48 57.

Definition high_surrogate (r : N) : bool := ((55296 <=? r) && (r <? 56320))%N.
Definition low_surrogate (r : N) : bool := ((56320 <=? r) && (r <? 57344))%N.
Definition surrogate (r : N) : bool := ((55296 <=? r) && (r <? 57344))%N.

(** [prefix] put before the string that [r] scanned. *)
Definition keep (prefix : string) (r : scanned string) : scanned string :=
  match r with
  | Scanned str rest => Scanned (prefix +:+ str) rest
  | Malformed => Malformed
  | Exhausted => Exhausted
  end.

Definition one (b : ascii) : string := String b EmptyString.

(** The body of a string literal, after its opening quote: the scanner's
    [stateInString] and friends fused with [unquote]. [pending] counts the
    continuation bytes of a UTF-8 sequence already checked at its first
    byte. An ill-formed byte is replaced by U+FFFD; an escaped surrogate
    that is not followed by its escaped partner likewise. *)
Fixpoint string_body (pending : nat) (s : string) : scanned string :=
  match s with
  | EmptyString => Malformed
  | String c rest =>
      match pending with
      | S pending' => keep (one c) (string_body pending' rest)
      | O =>
          if (code c =? code dq)%N then Scanned EmptyString rest
          else if (code c <? 32)%N then Malformed
          else if (code c =? code backslash)%N then
            match rest with
            | String e rest1 =>
                let plain (b : N) := keep (one (byte b)) (string_body 0 rest1) in
                if (code e =? 34)%N then plain 34%N
                else if (code e =? 92)%N then plain 92%N
                else if (code e =? 47)%N then plain 47%N
                else if (code e =? 98)%N then plain 8%N
                else if (code e =? 102)%N then plain 12%N
                else if (code e =? 110)%N then plain 10%N
                else if (code e =? 114)%N then plain 13%N
                else if (code e =? 116)%N then plain 9%N
                else if (code e =? 117)%N then
                  match rest1 with
                  | String h1 (String h2 (String h3 (String h4 rest5))) =>
                      match getu4 h1 h2 h3 h4 with
                      | None => Malformed
                      | Some rr =>
                          if surrogate rr then
                            match rest5 with
                            | String b1 (String b2 (String l1 (String l2
                                (String l3 (String l4 rest11))))) =>
                                match
                                  (if (code b1 =? 92)%N && (code b2 =? 117)%N
                                   then getu4 l1 l2 l3 l4 else None)
                                with
                                | Some rr1 =>
                                    if high_surrogate rr && low_surrogate rr1
                                    then
                                      keep
                                        (utf8_encode
                                           ((rr - 55296) * 1024
                                            + (rr1 - 56320) + 65536)%N)
                                        (string_body 0 rest11)
                                    else
                                      keep (utf8_encode replacement)
                                        (string_body 0 rest5)
                                | None =>
                                    keep (utf8_encode replacement)
                                      (string_body 0 rest5)
                                end
                            | _ =>
                                keep (utf8_encode replacement)
                                  (string_body 0 rest5)
                            end
                          else keep (utf8_encode rr) (string_body 0 rest5)
                      end
                  | _ => Malformed
                  end
                else Malformed
            | EmptyString => Malformed
            end
          else if (code c <? 128)%N then keep (one c) (string_body 0 rest)
          else
            match utf8_width c rest with
            | S w => keep (one c) (string_body w rest)
            | O => keep (utf8_encode replacement) (string_body 0 rest)
            end
      end
  end.

Fixpoint digits (s : string) : string * string :=
  match s with
  | String c rest =>
      if is_digit c then let '(ds, rest') := digits rest in (String c ds, rest')
      else (EmptyString, s)
  | EmptyString => (EmptyString, EmptyString)
  end.

Definition and_then {A B : Type} (r : scanned A)
    (k : A -> string -> scanned B) : scanned B :=
  match r with
  | Scanned a rest => k a rest
  | Malformed => Malformed
  | Exhausted => Exhausted
  end.

(** [s] without the prefix [p], if it starts with it. *)
Fixpoint strip_prefix (p s : string) : option string :=
  match p, s with
  | EmptyString, _ => Some s
  | String a p', String b s' =>
      if (code a =? code b)%N then strip_prefix p' s' else None
  | String _ _, EmptyString => None
  end.

Definition literal (word : string) (v : value) (s : string) : scanned value :=
  match strip_prefix word s with
  | Some rest => Scanned v rest
  | None => Malformed
  end.

(** One or more digits. *)
Definition digits1 (s : string) : scanned string :=
  match digits s with
  | (EmptyString, _) => Malformed
  | (ds, rest) => Scanned ds rest
  end.

(** A number literal by the scanner's grammar: an optional minus sign, a
    zero or a digit sequence without leading zero, an optional fraction,
    an optional exponent. The literal is kept as text. *)
Definition number (s : string) : scanned string :=
  let '(sign, s1) :=
    match s with
    | String c rest => if (code c =? 45)%N then ("-", rest) else (EmptyString, s)
    | EmptyString => (EmptyString, s)
    end in
  let integer :=
    match s1 with
    | String c rest =>
        if (code c =? 48)%N then Scanned "0" rest
        else if between 49 57 c then digits1 s1
        else Malformed
    | EmptyString => Malformed
    end in
  and_then integer (fun int s2 =>
  let fraction :=
    match s2 with
    | String c rest =>
        if (code c =? 46)%N
        then and_then (digits1 rest) (fun ds r => Scanned ("." +:+ ds) r)
        else Scanned EmptyString s2
    | EmptyString => Scanned EmptyString s2
    end in
  and_then fraction (fun frac s3 =>
  let exponent :=
    match s3 with
    | String c rest =>
        if (code c =? 101)%N || (code c =? 69)%N then
          let '(esign, s4) :=
            match rest with
            | String d rest' =>
                if (code d =? 43)%N || (code d =? 45)%N
                then (String d EmptyString, rest') else (EmptyString, rest)
            | EmptyString => (EmptyString, rest)
            end in
          and_then (digits1 s4) (fun ds r =>
            Scanned (String c EmptyString +:+ esign +:+ ds) r)
        else Scanned EmptyString s3
    | EmptyString => Scanned EmptyString s3
    end in
  and_then exponent (fun exp s5 =>
  Scanned (sign +:+ int +:+ frac +:+ exp) s5))).

Inductive goal : Type :=
| AValue      (* a value, after optional white space *)
| Elements    (* the elements of a non-empty array, up to its bracket *)
| Members.    (* the members of a non-empty object, up to its brace *)

(** The scanner refuses arrays and objects nested deeper than this. *)
Definition maxNestingDepth : N := 10000.

(** Recursive descent over the scanner's grammar; [depth] counts the
    arrays and objects that are open. Every call either consumes input or
    passes to a goal that does, so [fuel] bounds the recursion depth;
    [parse_text] supplies enough of it. *)
Fixpoint parse (fuel : nat) (depth : N) (g : goal) (s : string) : scanned value :=
  match fuel with
  | O => Exhausted
  | S fuel' =>
      match g with
      | AValue =>
          match skip_space s with
          | EmptyString => Malformed
          | String c rest =>
              if (code c =? 123)%N then
                if (maxNestingDepth <=? depth)%N then Malformed
                else
                  match skip_space rest with
                  | String c' rest' =>
                      if (code c' =? 125)%N then Scanned (Object []) rest'
                      else parse fuel' (depth + 1)%N Members rest
                  | EmptyString => Malformed
                  end
              else if (code c =? 91)%N then
                if (maxNestingDepth <=? depth)%N then Malformed
                else
                  match skip_space rest with
                  | String c' rest' =>
                      if (code c' =? 93)%N then Scanned (Array []) rest'
                      else parse fuel' (depth + 1)%N Elements rest
                  | EmptyString => Malformed
                  end
              else if (code c =? code dq)%N then
                and_then (string_body 0 rest) (fun str r => Scanned (Str str) r)
              else if (code c =? 116)%N then literal "rue" (Bool true) rest
              else if (code c =? 102)%N then literal "alse" (Bool false) rest
              else if (code c =? 110)%N then literal "ull" Null rest
              else if (code c =? 45)%N || is_digit c then
                and_then (number (String c rest)) (fun lit r => Scanned (Number lit) r)
              else Malformed
          end
      | Elements =>
          and_then (parse fuel' depth AValue s) (fun v rest =>
          match skip_space rest with
          | String c rest' =>
              if (code c =? 44)%N then
                and_then (parse fuel' depth Elements rest') (fun tail r =>
                match tail with
                | Array vs => Scanned (Array (v :: vs)) r
                | _ => Malformed
                end)
              else if (code c =? 93)%N then Scanned (Array [v]) rest'
              else Malformed
          | EmptyString => Malformed
          end)
      | Members =>
          match skip_space s with
          | String c rest =>
              if (code c =? code dq)%N then
                and_then (string_body 0 rest) (fun key rest1 =>
                match skip_space rest1 with
                | String c1 rest2 =>
                    if (code c1 =? 58)%N then
                      and_then (parse fuel' depth AValue rest2) (fun v rest3 =>
                      match skip_space rest3 with
                      | String c3 rest4 =>
                          if (code c3 =? 44)%N then
                            and_then (parse fuel' depth Members rest4) (fun tail r =>
                            match tail with
                            | Object ms => Scanned (Object ((key, v) :: ms)) r
                            | _ => Malformed
                            end)
                          else if (code c3 =? 125)%N
                          then Scanned (Object [(key, v)]) rest4
                          else Malformed
                      | EmptyString => Malformed
                      end)
                    else Malformed
                | EmptyString => Malformed
                end)
              else Malformed
          | EmptyString => Malformed
          end
      end
  end.

(** [checkValid] followed by the decoder's walk: the value of a whole JSON
    text, [None] on a syntax error (also on trailing non-space bytes). *)
Definition parse_text (data : string) : option value :=
  match parse (2 * String.length data + 2) 0 AValue data with
  | Scanned v rest =>
      match skip_space rest with
      | EmptyString => Some v
      | String _ _ => None
      end
  | Malformed | Exhausted => None
  end.

(** *** Decoding into struct fields *)

Inductive error : Type :=
| SyntaxError           (* the text is no JSON *)
| UnmarshalTypeError.   (* a value does not fit the Go type it is stored in *)

Definition upper (c : ascii) : N :=
  (if between 97 122 c then code c - 32 else code c)%N.

(** Does the object key [key] select the struct field tagged [field]?
    The decoder matches names under simple case folding; for an ASCII
    tag that is ASCII case-insensitivity plus the two non-ASCII runes that
    fold to ASCII letters, U+017F (long s) and U+212A (Kelvin sign). *)
Fixpoint fold_equal (field key : string) : bool :=
  match field, key with
  | EmptyString, EmptyString => true
  | EmptyString, String _ _ => false
  | String _ _, EmptyString => false
  | String sb field', String tb key' =>
      if (code tb <? 128)%N then (upper sb =? upper tb)%N && fold_equal field' key'
      else if (upper sb =? 83)%N then
        match key' with
        | String t1 key'' =>
            (code tb =? 197)%N && (code t1 =? 191)%N && fold_equal field' key''
        | EmptyString => false
        end
      else if (upper sb =? 75)%N then
        match key' with
        | String t1 (String t2 key'') =>
            (code tb =? 226)%N && (code t1 =? 132)%N && (code t2 =? 170)%N
            && fold_equal field' key''
        | _ => false
        end
      else false
  end.

(** The decoder's working state for one struct: the struct so far and the
    first type error met ([saveError]); decoding goes on after a type
    error and reports it at the end. *)
Record decoding (T : Type) : Type := Decoding {
  target : T;
  saved : option error
}.
Arguments Decoding {T} target saved.
Arguments target {T} d.
Arguments saved {T} d.

Definition save_error {T : Type} (d : decoding T) : decoding T :=
  Decoding (target d) (Some (default UnmarshalTypeError (saved d))).

(** Storing a JSON value in a [*string]: [null] makes the pointer nil, a
    string is stored behind a fresh or the present pointer, anything else
    is a type error. *)
Definition store_string_ptr (v : value) (old : option string)
  : option string * bool :=
  match v with
  | Null => (None, true)
  | Str s => (Some s, true)
  | _ => (Some (default EmptyString old), false)
  end.

(** Storing a JSON value in a [bool]: [null] leaves it alone. *)
Definition store_bool (v : value) (old : bool) : bool * bool :=
  match v with
  | Null => (old, true)
  | Bool b => (b, true)
  | _ => (old, false)
  end.

(** A [[]string] under decoding: the cells of its backing array and its
    length. Cells never written hold the empty string. *)
Definition slice : Type := list string * nat.

Definition slice_value (sl : slice) : list string := take (snd sl) (fst sl).

(** The elements of a JSON array stored over the cells [cells]: element
    [i] goes into cell [i], which keeps what it held if the element is
    [null]; the flag tells whether every element was a string or [null]. *)
Fixpoint store_elements (elements : list value) (cells : list string)
  : list string * bool :=
  match elements with
  | [] => ([], true)
  | v :: elements' =>
      let cell := default EmptyString (head cells) in
      let '(stored, fine) :=
        match v with
        | Null => (cell, true)
        | Str s => (s, true)
        | _ => (cell, false)
        end in
      let '(rest, fine') := store_elements elements' (tail cells) in
      (stored :: rest, fine && fine')
  end.

(** Storing a JSON value in a [*[]string]. An array is decoded into the
    slice already behind the pointer, if there is one (a repeated key),
    reusing its cells; an empty array installs a fresh empty slice. *)
Definition store_strings_ptr (v : value) (old : option slice)
  : option slice * bool :=
  match v with
  | Null => (None, true)
  | Array [] => (Some ([], 0), true)
  | Array elements =>
      let cells := fst (default ([], 0) old) in
      let '(stored, fine) := store_elements elements cells in
      (Some (stored ++ drop (length elements) cells, length elements), fine)
  | _ => (Some (default ([], 0) old), false)
  end.

(** *** Encoding *)

Definition u00 (c : ascii) : string :=
  String backslash (String "u" (String "0" (String "0"
    (String (hex_digit (code c / 16)) (String (hex_digit (code c mod 16))
       EmptyString))))).

Definition escape_2028 (last : ascii) : string :=
  String backslash (String "u" (String "2" (String "0" (String "2"
    (String (hex_digit (code last mod 16)) EmptyString))))).

(** The inside of an encoded string, as [Marshal] writes it (HTML escaping
    on): quote and backslash get a backslash; backspace, form feed, line
    feed, carriage return and tab their short escape; other control
    characters and the characters less-than, greater-than and ampersand a
    [u00XX] escape; a byte that starts no well-formed UTF-8 sequence is
    replaced by the bytes of U+FFFD, written as they are; U+2028 and U+2029
    are escaped. *)
Fixpoint escape_body (pending : nat) (s : string) : string :=
  match s with
  | EmptyString => EmptyString
  | String c rest =>
      match pending with
      | S pending' => String c (escape_body pending' rest)
      | O =>
          if (code c =? 34)%N || (code c =? 92)%N
          then String backslash (String c (escape_body 0 rest))
          else if (code c =? 8)%N then String backslash (String "b" (escape_body 0 rest))
          else if (code c =? 12)%N then String backslash (String "f" (escape_body 0 rest))
          else if (code c =? 10)%N then String backslash (String "n" (escape_body 0 rest))
          else if (code c =? 13)%N then String backslash (String "r" (escape_body 0 rest))
          else if (code c =? 9)%N then String backslash (String "t" (escape_body 0 rest))
          else if (code c <? 32)%N || (code c =? 60)%N || (code c =? 62)%N
                  || (code c =? 38)%N
          then u00 c +:+ escape_body 0 rest
          else if (code c <? 128)%N then String c (escape_body 0 rest)
          else
            match utf8_width c rest with
            | O => utf8_encode replacement +:+ escape_body 0 rest
            | S w =>
                match rest with
                | String c1 (String c2 rest2) =>
                    if (code c =? 226)%N && (code c1 =? 128)%N
                       && ((code c2 =? 168)%N || (code c2 =? 169)%N)
                    then escape_2028 c2 +:+ escape_body 0 rest2
                    else String c (escape_body w rest)
                | _ => String c (escape_body w rest)
                end
            end
      end
  end.

Definition encode_string (s : string) : string := quoted (escape_body 0 s).

Definition encode_bool (b : bool) : string := if b then "true" else "false".

(** [json.HTMLEscape]: the three HTML-sensitive characters and the two
    line separators inside string literals are replaced by escapes. *)
Fixpoint HTMLEscape (src : string) : string :=
  match src with
  | EmptyString => EmptyString
  | String c rest =>
      if (code c =? 60)%N || (code c =? 62)%N || (code c =? 38)%N
      then u00 c +:+ HTMLEscape rest
      else
        match rest with
        | String c1 (String c2 rest2) =>
            if (code c =? 226)%N && (code c1 =? 128)%N
               && ((code c2 =? 168)%N || (code c2 =? 169)%N)
            then escape_2028 c2 +:+ HTMLEscape rest2
            else String c (HTMLEscape rest)
        | _ => String c (HTMLEscape rest)
        end
  end.

(** *** Fuel *)

(** A scan of [s] that did not run out of fuel and, if it scanned
    something, consumed at least one byte. *)
Definition shorter {A : Type} (s : string) (r : scanned A) : Prop :=
  match r with
  | Scanned _ rest => String.length rest < String.length s
  | Malformed => True
  | Exhausted => False
  end.

(** Fuel that suffices for goal [g] on input [s]. *)
Definition enough (g : goal) (s : string) : nat :=
  match g with
  | AValue => 2 * String.length s + 1
  | Elements | Members => 2 * String.length s + 2
  end.

End Json.

(** ** [main.go] *)

Module Main.
Import Bytes.

(** *** Types

    Some fields are renamed because Rocq has one name space for types and
    projections: [BankAccountValidationRequest.Providers] is
    [RequestProviders], [BankAccountValidationResult.Provider] is
    [ResultProvider], [DataProviderResponse.IsValid] is [ProviderIsValid],
    [DataProviderRequest.AccountNumber] is [ProviderAccountNumber] and
    [Request.Body] is [RequestBody]. A Go pointer that may be nil is an
    [option]. *)

Record Provider : Type := {
  Name : string;
  URL : string
}.

Record Config : Type := {
  Providers : list Provider
}.

Record BankAccountValidationRequest : Type := {
  AccountNumber : option string;
  RequestProviders : option (list string)
}.

Record BankAccountValidationResult : Type := {
  ResultProvider : string;
  IsValid : bool
}.

Record BankAccountValidationResponse : Type := {
  Result : list BankAccountValidationResult
}.

(** Declared in [main.go], but [checkProvider] builds its request from a
    map instead. *)
Record DataProviderRequest : Type := {
  ProviderAccountNumber : string
}.

Record DataProviderResponse : Type := {
  ProviderIsValid : bool
}.

(** [events.APIGatewayProxyResponse], the fields the program sets; a nil
    header map is the empty map. *)
Record Response : Type := {
  StatusCode : Z;
  IsBase64Encoded : bool;
  Body : string;
  Headers : gmap string string
}.

(** [events.APIGatewayProxyRequest], the one field the program reads. *)
Record Request : Type := {
  RequestBody : string
}.

(** Go [error] values the program creates or receives. *)
Inductive go_error : Type :=
| JsonError (e : Json.error)
| ErrorString (text : string)          (* [errors.New] *)
| YamlError.                           (* from [yaml.Unmarshal] *)

(** What a call ends in: a return, a run-time panic (here always a nil
    pointer dereference), or, for code that runs goroutines, [Pending]
    when the schedule it was given is no complete execution: it stops
    before the return or names an action that is not enabled. *)
Inductive outcome (A : Type) : Type :=
| Returns (a : A)
| Panics
| Pending.
Arguments Returns {A} a.
Arguments Panics {A}.
Arguments Pending {A}.

Global Instance Provider_eq_dec : EqDecision Provider.
Proof. solve_decision. Defined.

Global Instance BankAccountValidationResult_eq_dec :
  EqDecision BankAccountValidationResult.
Proof. solve_decision. Defined.

(** *** [json.Unmarshal] and [json.Marshal] at the types of the program *)

(** One object member stored into a [BankAccountValidationRequest] under
    decoding; unknown keys are skipped. *)
Definition request_member
    (d : Json.decoding (option string * option Json.slice))
    (member : string * Json.value)
  : Json.decoding (option string * option Json.slice) :=
  let '(key, v) := member in
  let '(account, providers) := Json.target d in
  if Json.fold_equal "accountNumber" key then
    let '(account', fine) := Json.store_string_ptr v account in
    let d' := Json.Decoding (account', providers) (Json.saved d) in
    if fine then d' else Json.save_error d'
  else if Json.fold_equal "providers" key then
    let '(providers', fine) := Json.store_strings_ptr v providers in
    let d' := Json.Decoding (account, providers') (Json.saved d) in
    if fine then d' else Json.save_error d'
  else d.

(** [json.Unmarshal(data, &validationRequest)] with [validationRequest]
    a nil [*BankAccountValidationRequest]: the pointer afterwards and the
    error. The text [null] leaves the pointer nil without error. *)
Definition Unmarshal_request (data : string)
  : option BankAccountValidationRequest * option Json.error :=
  match Json.parse_text data with
  | None => (None, Some Json.SyntaxError)
  | Some Json.Null => (None, None)
  | Some (Json.Object members) =>
      let d := fold_left request_member members (Json.Decoding (None, None) None) in
      (Some {| AccountNumber := fst (Json.target d);
               RequestProviders := Json.slice_value <$> snd (Json.target d) |},
       Json.saved d)
  | Some _ =>
      (Some {| AccountNumber := None; RequestProviders := None |},
       Some Json.UnmarshalTypeError)
  end.

Definition response_member (d : Json.decoding bool) (member : string * Json.value)
  : Json.decoding bool :=
  let '(key, v) := member in
  if Json.fold_equal "isValid" key then
    let '(b, fine) := Json.store_bool v (Json.target d) in
    let d' := Json.Decoding b (Json.saved d) in
    if fine then d' else Json.save_error d'
  else d.

(** [json.Unmarshal(bodyBytes, &providerResponse)] with [providerResponse]
    a nil [*DataProviderResponse]. *)
Definition Unmarshal_provider_response (data : string)
  : option DataProviderResponse * option Json.error :=
  match Json.parse_text data with
  | None => (None, Some Json.SyntaxError)
  | Some Json.Null => (None, None)
  | Some (Json.Object members) =>
      let d := fold_left response_member members (Json.Decoding false None) in
      (Some {| ProviderIsValid := Json.target d |}, Json.saved d)
  | Some _ => (Some {| ProviderIsValid := false |}, Some Json.UnmarshalTypeError)
  end.

(** [json.Marshal] of a one-entry [map[string]string] or
    [map[string]interface{}] holding a string. It has no failing case at
    these types; the result keeps Go's shape of bytes and error. *)
Definition Marshal_entry (key val : string) : string * option go_error :=
  ("{" +:+ Json.encode_string key +:+ ":" +:+ Json.encode_string val +:+ "}",
   None).

Definition Marshal_result (r : BankAccountValidationResult) : string :=
  "{" +:+ Json.encode_string "provider" +:+ ":"
      +:+ Json.encode_string (ResultProvider r) +:+ ","
      +:+ Json.encode_string "isValid" +:+ ":"
      +:+ Json.encode_bool (IsValid r) +:+ "}".

Fixpoint join (sep : string) (parts : list string) : string :=
  match parts with
  | [] => EmptyString
  | [p] => p
  | p :: rest => p +:+ sep +:+ join sep rest
  end.

(** [json.Marshal(response)]; the result slice is never nil here. *)
Definition Marshal_response (response : BankAccountValidationResponse)
  : string * option go_error :=
  ("{" +:+ Json.encode_string "result" +:+ ":["
       +:+ join "," (map Marshal_result (Result response)) +:+ "]}",
   None).

(** *** [handleError]

    [log.Print] writes to standard error, which no function of the
    program reads; logging is left out of the embedding. *)
Definition handleError (err : option go_error) (message : string) : Response :=
  let '(body, _) := Marshal_entry "error" message in
  {| StatusCode := 500;
     IsBase64Encoded := false;
     Body := Json.HTMLEscape body;
     Headers := {[ "Content-Type" := "application/json" ]} |}.

(** *** [providersToCall] *)

(** The first loop: [confMap[value.Name] = value] for each provider. *)
Definition confMap (providers : list Provider) : gmap string Provider :=
  fold_left (fun m value => <[Name value := value]> m) providers empty.

Definition providersToCall (providers : list Provider)
    (filter : option (list string)) : list Provider :=
  match filter with
  | None => providers
  | Some names =>
      fold_left
        (fun filteredProviders providerName =>
           match confMap providers !! providerName with
           | Some providerConfig => filteredProviders ++ [providerConfig]
           | None => filteredProviders
           end)
        names []
  end.

(** *** [unmarshalRequest]

    The two results are Go's two pointers. Reading [AccountNumber]
    through a nil [validationRequest] panics. *)
Definition unmarshalRequest (request : Request)
  : outcome (option BankAccountValidationRequest * option Response) :=
  match Unmarshal_request (RequestBody request) with
  | (_, Some err) =>
      Returns (None, Some (handleError (Some (JsonError err)) "invalid json payload"))
  | (None, None) => Panics
  | (Some validationRequest, None) =>
      match AccountNumber validationRequest with
      | None =>
          let message := "account number missing from payload" in
          Returns (None, Some (handleError (Some (ErrorString message)) message))
      | Some _ => Returns (Some validationRequest, None)
      end
  end.

(** *** [checkProvider] *)

(** The outbound call of [client.Post(url, contentType, body)]. *)
Record http_request : Type := {
  post_url : string;
  post_content_type : string;
  post_body : string
}.

(** What [io.ReadAll(response.Body)] gives; [timeout] tells the client
    timeout from other read errors. *)
Inductive body_read : Type :=
| ReadAll (bodyBytes : string)
| ReadError (timeout : bool).

(** What [client.Post] gives: an error ([timeout] for the one-second
    client timeout, otherwise a network error), or a response with its
    status and a body yet to be read. *)
Inductive post_result : Type :=
| PostError (timeout : bool)
| PostResponse (status : Z) (body : body_read).

(** The remote side of one call. *)
Definition transport : Type := http_request -> post_result.

(** How a [checkProvider] goroutine gets to its end: it sends one result
    on the channel, or it panics on a nil [providerResponse]. *)
Inductive sent : Type :=
| Sends (result : BankAccountValidationResult)
| NilDereference.

Definition checkProvider (accountNumber : string) (provider : Provider)
    (post : transport) : sent :=
  let defaultResponse :=
    {| IsValid := false; ResultProvider := Name provider |} in
  match Marshal_entry "accountNumber" accountNumber with
  | (_, Some err) => Sends defaultResponse
  | (json_data, None) =>
      match post {| post_url := URL provider;
                    post_content_type := "application/json";
                    post_body := json_data |} with
      | PostError _ => Sends defaultResponse
      | PostResponse _ (ReadError _) => Sends defaultResponse
      | PostResponse _ (ReadAll bodyBytes) =>
          match Unmarshal_provider_response bodyBytes with
          | (_, Some err) => Sends defaultResponse
          | (None, None) => NilDereference
          | (Some providerResponse, None) =>
              Sends {| IsValid := ProviderIsValid providerResponse;
                       ResultProvider := Name provider |}
          end
      end
  end.

(** *** [checkProviders]: goroutines, the channel and the wait group *)

(** A [checkProvider] goroutine. A goroutine that panics still runs its
    deferred [wg.Done()]; only then, the panic not being recovered, does
    the runtime end the process, and the other goroutines run on until it
    does. *)
Inductive goroutine : Type :=
| Dispatched (provider : Provider)              (* started, before its send *)
| Blocked (result : BankAccountValidationResult) (* at [c <- result] *)
| Unwinding                                     (* sent; deferred [wg.Done] due *)
| Panicking                                     (* panicked; deferred [wg.Done] due *)
| Unrecovered                                   (* panicked, deferred call run *)
| Finished.

(** Where [checkProviders] itself stands. *)
Inductive main_pc : Type :=
| Spawning (remaining : list Provider)   (* in the first loop *)
| Ranging                                (* in [for result := range channel] *)
| Returned.

Record state : Type := State {
  pc : main_pc;
  goroutines : list goroutine;
  wg : Z;                                 (* the WaitGroup counter *)
  closed : bool;                          (* [close(channel)] has run *)
  results : list BankAccountValidationResult
}.

(** An unrecovered panic in any goroutine ends the process. *)
Inductive machine : Type :=
| Live (s : state)
| Crashed.

Inductive action : Type :=
| Spawn            (* main: [wg.Add(1); go checkProvider(...)] *)
| Collect          (* main: leaves the loop, starts the closer, reaches the range *)
| Call (i : nat)     (* goroutine [i] runs up to its send *)
| Receive (i : nat)  (* the send of goroutine [i] meets the receive; append *)
| Done (i : nat)     (* goroutine [i] returns or unwinds: deferred [wg.Done()] *)
| Abort (i : nat)    (* the unrecovered panic of goroutine [i] ends the process *)
| Close            (* closer: [wg.Wait()] is over; [close(channel)] *)
| Return.          (* main: the range ends on the closed channel *)

(** [close(channel)] makes the senders that wait on the channel panic. *)
Definition wake (g : goroutine) : goroutine :=
  match g with Blocked _ => Panicking | _ => g end.

(** One step: [None] when the action is not enabled in [s]. The remote
    side [world i] answers the call of goroutine [i]. The nil dereference
    and a send on the closed channel are panics of the goroutine, which
    then unwinds: its deferred [wg.Done()] runs as a step of its own, and
    [Abort] is the end of the process that follows. A [wg.Done()] that
    makes the counter negative panics itself. *)
Definition exec (accountNumber : string) (world : nat -> transport)
    (a : action) (s : state) : option machine :=
  match a with
  | Spawn =>
      match pc s with
      | Spawning (provider :: remaining) =>
          Some (Live (State (Spawning remaining)
                        (goroutines s ++ [Dispatched provider])
                        (wg s + 1)%Z (closed s) (results s)))
      | _ => None
      end
  | Collect =>
      match pc s with
      | Spawning [] =>
          Some (Live (State Ranging (goroutines s) (wg s) (closed s) (results s)))
      | _ => None
      end
  | Call i =>
      match goroutines s !! i with
      | Some (Dispatched provider) =>
          Some (Live (State (pc s)
                        (<[i := match checkProvider accountNumber provider (world i) with
                                | Sends result =>
                                    if closed s then Panicking else Blocked result
                                | NilDereference => Panicking
                                end]> (goroutines s))
                        (wg s) (closed s) (results s)))
      | _ => None
      end
  | Receive i =>
      match pc s, goroutines s !! i with
      | Ranging, Some (Blocked result) =>
          if closed s then None
          else Some (Live (State (pc s) (<[i := Unwinding]> (goroutines s))
                             (wg s) (closed s) (results s ++ [result])))
      | _, _ => None
      end
  | Done i =>
      match goroutines s !! i with
      | Some Unwinding =>
          Some (Live (State (pc s)
                        (<[i := if (0 <? wg s)%Z then Finished else Unrecovered]>
                           (goroutines s))
                        (wg s - 1)%Z (closed s) (results s)))
      | Some Panicking =>
          Some (Live (State (pc s) (<[i := Unrecovered]> (goroutines s))
                        (wg s - 1)%Z (closed s) (results s)))
      | _ => None
      end
  | Abort i =>
      match goroutines s !! i with
      | Some Unrecovered => Some Crashed
      | _ => None
      end
  | Close =>
      match pc s with
      | Spawning _ => None
      | Ranging | Returned =>
          if (wg s =? 0)%Z && negb (closed s)
          then Some (Live (State (pc s) (map wake (goroutines s)) (wg s) true
                             (results s)))
          else None
      end
  | Return =>
      match pc s, closed s with
      | Ranging, true =>
          Some (Live (State Returned (goroutines s) (wg s) (closed s) (results s)))
      | _, _ => None
      end
  end.

Definition initial (providers : list Provider) : state :=
  State (Spawning providers) [] 0 false [].

(** A schedule is the sequence of actions the Go scheduler picks; once
    the process has ended nothing runs any more. *)
Fixpoint run (accountNumber : string) (world : nat -> transport)
    (schedule : list action) (m : machine) : option machine :=
  match schedule with
  | [] => Some m
  | a :: schedule' =>
      match m with
      | Crashed => Some Crashed
      | Live s =>
          match exec accountNumber world a s with
          | Some m' => run accountNumber world schedule' m'
          | None => None
          end
      end
  end.

(** [checkProviders] under a schedule: it [Returns] when the schedule
    takes the main goroutine to its return, also when a goroutine has
    panicked by then and the process is about to end; it [Panics] when the
    schedule ends the process. *)
Definition checkProviders (accountNumber : string) (providers : list Provider)
    (world : nat -> transport) (schedule : list action)
  : outcome BankAccountValidationResponse :=
  match run accountNumber world schedule (Live (initial providers)) with
  | Some (Live s) =>
      match pc s with
      | Returned => Returns {| Result := results s |}
      | _ => Pending
      end
  | Some Crashed => Panics
  | None => Pending
  end.

(** The schedule that runs the goroutines one after the other, in the
    order they were started. *)
Definition in_order (n : nat) : list action :=
  repeat Spawn n ++ [Collect]
  ++ flat_map (fun i => [Call i; Receive i; Done i]) (seq 0 n)
  ++ [Close; Return].

(** *** [Handler] *)

Definition Handler (config : Config) (request : Request)
    (world : nat -> transport) (schedule : list action)
  : outcome (Response * option go_error) :=
  match unmarshalRequest request with
  | Panics => Panics
  | Pending => Pending
  | Returns (_, Some errorResponse) => Returns (errorResponse, None)
  | Returns (None, None) => Panics
  | Returns (Some validationRequest, None) =>
      match AccountNumber validationRequest with
      | None => Panics
      | Some accountNumber =>
          match checkProviders accountNumber
                  (providersToCall (Providers config)
                     (RequestProviders validationRequest))
                  world schedule with
          | Panics => Panics
          | Pending => Pending
          | Returns response =>
              match Marshal_response response with
              | (_, Some err) =>
                  Returns ({| StatusCode := 404; IsBase64Encoded := false;
                              Body := EmptyString; Headers := empty |},
                           Some err)
              | (body, None) =>
                  Returns ({| StatusCode := 200;
                              IsBase64Encoded := false;
                              Body := Json.HTMLEscape body;
                              Headers := {[ "Content-Type" := "application/json" ]} |},
                           None)
              end
          end
      end
  end.

(** *** [readConfig], [OnlyErrors], [main] *)

Definition OnlyErrors (err : Response) : Response := err.

(** [yaml.Unmarshal([]byte(providerYaml), &config)] belongs to
    [gopkg.in/yaml.v2] and is a parameter: the pointer afterwards and the
    error. *)
Definition yaml_decoder : Type := string -> option Config * option go_error.

Definition readConfig (yaml_Unmarshal : yaml_decoder)
    (environ : gmap string string) : option Config * option Response :=
  match environ !! "PROVIDERS" with
  | None => (None, Some (handleError None "ENVVAR PROVIDERS is required"))
  | Some providerYaml =>
      match yaml_Unmarshal providerYaml with
      | (Some config, None) => (Some config, None)
      | _ => (None, Some (handleError None "ENVVAR PROVIDERS is invalid yaml"))
      end
  end.

(** The function [main] hands to [lambda.Start]. *)
Inductive started : Type :=
| StartOnlyErrors (err : Response)
| StartHandler (config : option Config).

Definition main (yaml_Unmarshal : yaml_decoder) (environ : gmap string string)
  : started :=
  match readConfig yaml_Unmarshal environ with
  | (_, Some err) => StartOnlyErrors err
  | (config, None) => StartHandler config
  end.

(** *** The specification's wording, for comparison with the code *)

(** The provider registry filter as the specification words it: the
    configured providers whose name is requested, in configured order. *)
Definition filter_in_configured_order (providers : list Provider)
    (requestedNames : list string) : list Provider :=
  filter (fun p => Name p ∈ requestedNames) providers.

(** "Duplicate names in the filter do not duplicate the result." *)
Definition duplicates_do_not_duplicate : Prop :=
  forall (providers : list Provider) (names : list string) (p : Provider),
    1 < length (filter (fun n => n = Name p) names) ->
    length (filter (fun p' => p' = p) (providersToCall providers (Some names))) <= 1.

(** The request [checkProvider] posts. *)
Definition outbound (accountNumber : string) (provider : Provider) : http_request :=
  {| post_url := URL provider;
     post_content_type := "application/json";
     post_body := fst (Marshal_entry "accountNumber" accountNumber) |}.

(** The specification's failures of a provider call: "network error,
    non-success status, malformed response body, or timeout". *)
Definition call_failed (r : post_result) : bool :=
  match r with
  | PostError _ => true
  | PostResponse status (ReadError _) => true
  | PostResponse status (ReadAll bodyBytes) =>
      negb ((200 <=? status)%Z && (status <? 300)%Z)
      || match Unmarshal_provider_response bodyBytes with
         | (Some _, None) => false
         | _ => true
         end
  end.

(** "On any failure the outcome defaults to
    [{providerName: provider.name, isValid: false}]." *)
Definition every_failure_absorbed : Prop :=
  forall (accountNumber : string) (provider : Provider) (post : transport),
    call_failed (post (outbound accountNumber provider)) = true ->
    checkProvider accountNumber provider post
    = Sends {| ResultProvider := Name provider; IsValid := false |}.

(** "[aggregate] returns exactly [N] outcomes, each with a distinct
    [providerName] matching the name of a provider in [P]." *)
Definition one_distinct_outcome_per_provider : Prop :=
  forall (accountNumber : string) (providers : list Provider)
         (world : nat -> transport) (schedule : list action)
         (response : BankAccountValidationResponse),
    checkProviders accountNumber providers world schedule = Returns response ->
    length (Result response) = length providers
    /\ NoDup (map ResultProvider (Result response))
    /\ (forall r, r ∈ Result response -> ResultProvider r ∈ map Name providers).

(** "Whose body is unparseable JSON or whose parsed payload lacks an
    accountNumber field": no JSON at all, or a JSON value without a member
    that the decoder takes for [accountNumber]. *)
Definition lacks_accountNumber (v : Json.value) : bool :=
  match v with
  | Json.Object members =>
      forallb (fun member => negb (Json.fold_equal "accountNumber" (fst member)))
        members
  | _ => true
  end.

Definition malformed_request (request : Request) : bool :=
  match Json.parse_text (RequestBody request) with
  | None => true
  | Some v => lacks_accountNumber v
  end.

(** "The Handler returns an error response produced by unmarshalRequest
    and the core is never invoked": the reply is that error response
    whatever the configuration, the remote side and the schedule. *)
Definition malformed_requests_rejected : Prop :=
  forall request : Request,
    malformed_request request = true ->
    exists errorResponse : Response,
      unmarshalRequest request = Returns (None, Some errorResponse)
      /\ forall config world schedule,
           Handler config request world schedule = Returns (errorResponse, None).

(** *** Bookkeeping for the goroutine machine *)

(** No provider call of the run ends in the nil dereference. *)
Definition answers (accountNumber : string) (providers : list Provider)
    (world : nat -> transport) : Prop :=
  forall (i : nat) (p : Provider),
    providers !! i = Some p ->
    checkProvider accountNumber p (world i) <> NilDereference.

(** What a goroutine at its end has put on the channel. *)
Definition outcome_sent (o : sent) : list BankAccountValidationResult :=
  match o with
  | Sends result => [result]
  | NilDereference => []
  end.

(** The result goroutine [i], started for provider [p], sends: none when
    its call meets the nil dereference. *)
Definition expected (accountNumber : string) (world : nat -> transport)
    (i : nat) (p : Provider) : list BankAccountValidationResult :=
  outcome_sent (checkProvider accountNumber p (world i)).

(** The results the goroutines [gs], numbered from [i], have yet to
    hand over. *)
Fixpoint owed (accountNumber : string) (world : nat -> transport)
    (i : nat) (gs : list goroutine) : list BankAccountValidationResult :=
  match gs with
  | [] => []
  | g :: gs' =>
      match g with
      | Dispatched p => expected accountNumber world i p
      | Blocked result => [result]
      | Unwinding | Panicking | Unrecovered | Finished => []
      end ++ owed accountNumber world (S i) gs'
  end.

(** The results of goroutines still to be started for [ps], numbered
    from [i]. *)
Fixpoint expected_from (accountNumber : string) (world : nat -> transport)
    (i : nat) (ps : list Provider) : list BankAccountValidationResult :=
  match ps with
  | [] => []
  | p :: ps' =>
      expected accountNumber world i p
      ++ expected_from accountNumber world (S i) ps'
  end.

(** The outcomes that the calls for [providers] send, in the order of the
    list: the outcome of every call but those that meet the nil
    dereference. *)
Definition delivered (accountNumber : string) (providers : list Provider)
    (world : nat -> transport) : list BankAccountValidationResult :=
  concat (imap (fun i p => outcome_sent (checkProvider accountNumber p (world i)))
            providers).

Definition remaining_of (p : main_pc) : list Provider :=
  match p with
  | Spawning remaining => remaining
  | Ranging | Returned => []
  end.

(** Steps a call takes: call, receive and [wg.Done], or call and
    [wg.Done] when it meets the nil dereference. *)
Definition cost (o : sent) : nat :=
  match o with
  | Sends _ => 3
  | NilDereference => 2
  end.

(** Steps goroutine [i] has left. *)
Definition stage (accountNumber : string) (world : nat -> transport)
    (i : nat) (g : goroutine) : nat :=
  match g with
  | Dispatched p => cost (checkProvider accountNumber p (world i))
  | Blocked _ => 2
  | Unwinding | Panicking => 1
  | Unrecovered | Finished => 0
  end.

(** Steps the goroutines [gs], numbered from [i], have left. *)
Fixpoint due (accountNumber : string) (world : nat -> transport)
    (i : nat) (gs : list goroutine) : nat :=
  match gs with
  | [] => 0
  | g :: gs' => stage accountNumber world i g + due accountNumber world (S i) gs'
  end.

(** Steps it takes to start and run the goroutines for [ps], numbered
    from [i]. *)
Fixpoint due_from (accountNumber : string) (world : nat -> transport)
    (i : nat) (ps : list Provider) : nat :=
  match ps with
  | [] => 0
  | p :: ps' =>
      S (cost (checkProvider accountNumber p (world i)))
      + due_from accountNumber world (S i) ps'
  end.

(** Whether a goroutine still holds its unit of the WaitGroup counter. *)
Definition holds (g : goroutine) : nat :=
  match g with
  | Unrecovered | Finished => 0
  | Dispatched _ | Blocked _ | Unwinding | Panicking => 1
  end.

(** Goroutine [i] in state [g] was started for provider [i] of the list,
    and it is on the panic path only if its call met the nil
    dereference. *)
Definition tracked (accountNumber : string) (world : nat -> transport)
    (providers : list Provider) (i : nat) (g : goroutine) : Prop :=
  exists p, providers !! i = Some p
    /\ match g with
       | Dispatched q => q = p
       | Blocked result => checkProvider accountNumber p (world i) = Sends result
       | Unwinding | Finished =>
           checkProvider accountNumber p (world i) <> NilDereference
       | Panicking | Unrecovered =>
           checkProvider accountNumber p (world i) = NilDereference
       end.

(** Steps a state has left before [checkProviders] returns. *)
Definition measure (accountNumber : string) (world : nat -> transport)
    (s : state) : nat :=
  match pc s with
  | Spawning remaining =>
      due_from accountNumber world (length (goroutines s)) remaining + 2
  | Ranging => 1
  | Returned => 0
  end
  + due accountNumber world 0 (goroutines s)
  + (if closed s then 0 else 1).

(** What holds of every state [checkProviders] reaches on [providers],
    whatever the remote side answers:
    - every expected result is collected, owed by a goroutine, or due from
      a provider not started yet;
    - goroutine [i] was started for provider [i], it panics only on the
      nil dereference, and the providers still to be started are the rest
      of the list;
    - the WaitGroup counter counts the goroutines that have not run
      [wg.Done];
    - the channel is closed only at counter zero and after the first loop,
      and it is closed when [checkProviders] has returned. *)
Definition invariant (accountNumber : string) (world : nat -> transport)
    (providers : list Provider) (s : state) : Prop :=
  Permutation
    (results s ++ owed accountNumber world 0 (goroutines s)
       ++ expected_from accountNumber world (length (goroutines s))
            (remaining_of (pc s)))
    (expected_from accountNumber world 0 providers)
  /\ (forall i g, goroutines s !! i = Some g ->
        tracked accountNumber world providers i g)
  /\ drop (length (goroutines s)) providers = remaining_of (pc s)
  /\ wg s = Z.of_nat (sum_list_with holds (goroutines s))
  /\ (closed s = true -> wg s = 0%Z)
  /\ match pc s with
     | Spawning _ => closed s = false
     | Ranging => True
     | Returned => closed s = true
     end.

(** *** Data of [main_test.go] and remote sides for examples *)

Definition provider1 : Provider :=
  {| Name := "provider1"; URL := "https://provider1.com/v1/api/account/validate" |}.

Definition provider2 : Provider :=
  {| Name := "provider2"; URL := "https://provider2.com/v1/api/account/validate" |}.

(** Every connection is refused. *)
Definition refusing : nat -> transport := fun _ _ => PostError false.

(** Every call is answered with [status] and [bodyBytes]. *)
Definition replying (status : Z) (bodyBytes : string) : nat -> transport :=
  fun _ _ => PostResponse status (ReadAll bodyBytes).

(** The body [{"isValid":true}]. *)
Definition valid_body : string := "{" +:+ quoted "isValid" +:+ ":true}".

(** The body [{"isValid":b}]. *)
Definition verdict_body (b : bool) : string :=
  "{" +:+ quoted "isValid" +:+ ":" +:+ Json.encode_bool b +:+ "}".

(** The body [{"accountNumber": ""}]. *)
Definition empty_account_body : string :=
  "{" +:+ quoted "accountNumber" +:+ ": " +:+ quoted EmptyString +:+ "}".

(** *** Strings that the encoder leaves as they are *)

(** A printable ASCII byte that [Marshal] does not escape. *)
Definition plain_byte (c : ascii) : bool :=
  between 32 127 c
  && negb ((code c =? 34) || (code c =? 92) || (code c =? 60)
           || (code c =? 62) || (code c =? 38))%N.

Fixpoint plain (s : string) : bool :=
  match s with
  | EmptyString => true
  | String c rest => plain_byte c && plain rest
  end.

(** An ASCII byte that [HTMLEscape] copies. *)
Definition html_safe_byte (c : ascii) : bool :=
  (code c <? 128)%N
  && negb ((code c =? 60) || (code c =? 62) || (code c =? 38))%N.

Fixpoint html_safe (s : string) : bool :=
  match s with
  | EmptyString => true
  | String c rest => html_safe_byte c && html_safe rest
  end.

(** The messages the program passes to [handleError]. *)
Definition request_messages : list string :=
  ["invalid json payload"; "account number missing from payload"].

Definition config_messages : list string :=
  ["ENVVAR PROVIDERS is required"; "ENVVAR PROVIDERS is invalid yaml"].

(** The reply of [Handler] once [checkProviders] is over. *)
Definition reply (o : outcome BankAccountValidationResponse)
  : outcome (Response * option go_error) :=
  match o with
  | Returns response =>
      Returns ({| StatusCode := 200;
                  IsBase64Encoded := false;
                  Body := Json.HTMLEscape (fst (Marshal_response response));
                  Headers := {[ "Content-Type" := "application/json" ]} |},
               None)
  | Panics => Panics
  | Pending => Pending
  end.


(** Says "valid" when the posted body is [body], and refuses every other
    connection. *)
Definition accepting_only (body : string) : transport :=
  fun r =>
    if String.eqb (post_body r) body then PostResponse 200 (ReadAll valid_body)
    else PostError false.

(** A YAML decoder for examples: it accepts the one document [good] as
    the configuration of [main_test.go] and rejects every other text. *)
Definition yaml_accepting (good : string) : yaml_decoder :=
  fun text =>
    if String.eqb text good
    then (Some {| Providers := [provider1; provider2] |}, None)
    else (None, Some YamlError).

(** The error response the tests expect for [message]. *)
Definition error_body (message : string) : string :=
  "{" +:+ quoted "error" +:+ ":" +:+ quoted message +:+ "}".

Definition error_response (message : string) : Response :=
  {| StatusCode := 500;
     IsBase64Encoded := false;
     Body := error_body message;
     Headers := {[ "Content-Type" := "application/json" ]} |}.

(** *** Data for the further properties *)

(** A second configuration entry under the name of [provider1]. *)
Definition provider1_again : Provider :=
  {| Name := "provider1"; URL := "https://provider1.com/v2/api/account/validate" |}.

(** The remote side that answers the call of goroutine [bad] with the
    body [null] and refuses every other connection. *)
Definition null_at (bad : nat) : nat -> transport :=
  fun i _ => if Nat.eqb i bad then PostResponse 200 (ReadAll "null")
             else PostError false.

(** No byte of [s] is one of the three that [HTMLEscape] replaces. *)
Fixpoint html_free (s : string) : bool :=
  match s with
  | EmptyString => true
  | String c rest =>
      negb ((code c =? 60) || (code c =? 62) || (code c =? 38))%N
      && html_free rest
  end.

(** The schedule that starts every goroutine, lets each of the [n]
    goroutines run up to its send, and then has the sends received in the
    order [order]. *)
Definition receiving (order : list nat) (n : nat) : list action :=
  repeat Spawn n ++ [Collect]
  ++ map Call (seq 0 n) ++ map Receive order ++ map Done (seq 0 n)
  ++ [Close; Return].

(** The JSON values a client gets when it parses a response body. *)
Definition result_value (r : BankAccountValidationResult) : Json.value :=
  Json.Object [("provider", Json.Str (ResultProvider r));
               ("isValid", Json.Bool (IsValid r))].

Definition response_value (response : BankAccountValidationResponse) : Json.value :=
  Json.Object [("result", Json.Array (map result_value (Result response)))].

End Main.

(** * Properties *)

(** ** The JSON scanner never runs out of fuel *)

Module Syntax.
Import Bytes Json.

Lemma skip_space_length (s : string) :
  String.length (skip_space s) <= String.length s.
Proof.
  induction s as [|c s IH]; simpl; [lia |].
  destruct (is_space c); simpl; lia.
Qed.

Lemma skip_space_cons (s : string) (c : ascii) (rest : string) :
  skip_space s = String c rest -> String.length rest < String.length s.
Proof.
  intros H. pose proof (skip_space_length s) as Hle. rewrite H in Hle.
  simpl in Hle. lia.
Qed.

Lemma shorter_weaken {A : Type} (s s' : string) (r : scanned A) :
  shorter s' r -> String.length s' <= String.length s -> shorter s r.
Proof. destruct r; simpl; [lia | trivial | trivial]. Qed.

Lemma shorter_keep (s : string) (prefix : string) (r : scanned string) :
  shorter s r -> shorter s (keep prefix r).
Proof. now destruct r. Qed.

Lemma shorter_and_then {A B : Type} (s : string) (r : scanned A)
    (k : A -> string -> scanned B) :
  shorter s r ->
  (forall a rest, String.length rest < String.length s -> shorter s (k a rest)) ->
  shorter s (and_then r k).
Proof. destruct r; simpl; auto. Qed.

Ltac case_if :=
  match goal with
  | |- context [if ?b then _ else _] => destruct b
  end.

(** A string literal's body is scanned without fuel, and past its closing
    quote. *)
Lemma string_body_shorter (n : nat) :
  forall (s : string) (pending : nat),
    String.length s <= n -> shorter s (string_body pending s).
Proof.
  induction n as [|n IH]; intros s pending Hn.
  - destruct s; [exact I | simpl in Hn; lia].
  - destruct s as [|c rest]; [exact I |]. simpl in Hn.
    assert (Hstep : forall prefix k tail,
               String.length tail <= String.length rest ->
               shorter (String c rest) (keep prefix (string_body k tail))).
    { intros prefix k tail Htail. apply shorter_keep.
      apply shorter_weaken with (s' := tail); [apply IH; lia |].
      cbn [String.length]. lia. }
    cbn [string_body]. destruct pending as [|pending'].
    + repeat first
        [ exact I
        | apply Hstep; cbn [String.length]; lia
        | progress cbn [shorter String.length]; lia
        | case_if
        | match goal with
          | |- shorter _ (match ?x with _ => _ end) => destruct x
          end ].
    + apply Hstep. lia.
Qed.

Lemma digits_length (s : string) :
  String.length (snd (digits s)) <= String.length s
  /\ (fst (digits s) <> EmptyString ->
      String.length (snd (digits s)) < String.length s).
Proof.
  induction s as [|c s [IH _]]; simpl; [split; [lia | congruence] |].
  destruct (is_digit c); simpl.
  - destruct (digits s) as [ds rest]. simpl in *. split; [lia | intros _; lia].
  - split; [lia | congruence].
Qed.

Lemma digits1_shorter (s : string) : shorter s (digits1 s).
Proof.
  unfold digits1. pose proof (digits_length s) as [_ H].
  destruct (digits s) as [[|d ds] rest]; [exact I |].
  simpl in *. apply H. discriminate.
Qed.

Lemma strip_prefix_length (p s rest : string) :
  strip_prefix p s = Some rest -> String.length rest <= String.length s.
Proof.
  revert s. induction p as [|a p IH]; intros [|b s]; simpl;
    try discriminate; try (intros [= <-]; simpl; lia).
  destruct (code a =? code b)%N; [| discriminate].
  intros H. apply IH in H. lia.
Qed.

Lemma literal_shorter (word : string) (v : value) (c : ascii) (s : string) :
  shorter (String c s) (literal word v s).
Proof.
  unfold literal. destruct (strip_prefix word s) as [rest|] eqn:H; [| exact I].
  apply strip_prefix_length in H. simpl. lia.
Qed.

Lemma number_shorter (s : string) : shorter s (number s).
Proof.
  unfold number.
  assert (Hdigits : forall t, String.length t <= String.length s ->
                              shorter s (digits1 t)).
  { intros t Ht. apply shorter_weaken with (s' := t); [apply digits1_shorter | exact Ht]. }
  assert (Hsign : exists sign s1,
             match s with
             | String c rest =>
                 if (code c =? 45)%N then ("-", rest) else (EmptyString, s)
             | EmptyString => (EmptyString, s)
             end = (sign, s1)
             /\ String.length s1 <= String.length s).
  { destruct s as [|c rest]; [eauto |].
    destruct (code c =? 45)%N; eexists _, _; (split; [reflexivity | simpl; lia]). }
  destruct Hsign as (sign & s1 & -> & Hs1).
  apply shorter_and_then.
  { destruct s1 as [|c rest]; [exact I |].
    destruct (code c =? 48)%N; [simpl in *; lia |].
    destruct (between 49 57 c); [| exact I]. now apply Hdigits. }
  intros int s2 Hs2. apply shorter_and_then.
  { destruct s2 as [|c rest]; [simpl in *; lia |].
    destruct (code c =? 46)%N; [| simpl in *; lia].
    apply shorter_and_then; [apply Hdigits; simpl in *; lia |].
    intros ds r Hr. exact Hr. }
  intros frac s3 Hs3. apply shorter_and_then.
  { destruct s3 as [|c rest]; [simpl in *; lia |].
    destruct ((code c =? 101)%N || (code c =? 69)%N); [| simpl in *; lia].
    assert (Hexp : exists esign s4,
               match rest with
               | String d rest' =>
                   if (code d =? 43)%N || (code d =? 45)%N
                   then (String d EmptyString, rest') else (EmptyString, rest)
               | EmptyString => (EmptyString, rest)
               end = (esign, s4)
               /\ String.length s4 <= String.length rest).
    { destruct rest as [|d rest']; [eauto |].
      destruct ((code d =? 43)%N || (code d =? 45)%N); eexists _, _;
        (split; [reflexivity | simpl; lia]). }
    destruct Hexp as (esign & s4 & -> & Hs4).
    apply shorter_and_then; [apply Hdigits; simpl in *; lia |].
    intros ds r Hr. exact Hr. }
  intros exp s5 Hs5. exact Hs5.
Qed.

(** With fuel [enough g s] the parser does not run out of it, and what
    it parses is non-empty. *)
Lemma parse_shorter (fuel : nat) :
  forall (depth : N) (g : goal) (s : string),
    enough g s <= fuel -> shorter s (parse fuel depth g s).
Proof.
  induction fuel as [|fuel IH]; intros depth g s Hfuel.
  - destruct g; simpl in Hfuel; lia.
  - assert (Hrec : forall depth' g' t,
               String.length t < String.length s ->
               shorter s (parse fuel depth' g' t)).
    { intros depth' g' t Ht. apply shorter_weaken with (s' := t); [| lia].
      apply IH. destruct g, g'; simpl in *; lia. }
    destruct g; cbn [parse].
    + destruct (skip_space s) as [|c rest] eqn:Hs; [exact I |].
      apply skip_space_cons in Hs.
      repeat case_if; try exact I.
      * destruct (skip_space rest) as [|c' rest'] eqn:Hr; [exact I |].
        apply skip_space_cons in Hr.
        case_if; [simpl; lia | now apply Hrec].
      * destruct (skip_space rest) as [|c' rest'] eqn:Hr; [exact I |].
        apply skip_space_cons in Hr.
        case_if; [simpl; lia | now apply Hrec].
      * apply shorter_and_then.
        -- apply shorter_weaken with (s' := rest);
             [now apply (string_body_shorter (String.length rest)) | lia].
        -- intros str r Hr. exact Hr.
      * apply shorter_weaken with (s' := String c rest);
          [apply literal_shorter | simpl; lia].
      * apply shorter_weaken with (s' := String c rest);
          [apply literal_shorter | simpl; lia].
      * apply shorter_weaken with (s' := String c rest);
          [apply literal_shorter | simpl; lia].
      * apply shorter_and_then.
        -- apply shorter_weaken with (s' := String c rest);
             [apply number_shorter | simpl; lia].
        -- intros lit r Hr. exact Hr.
    + apply shorter_and_then.
      * apply IH. simpl in *. lia.
      * intros v rest Hrest.
        destruct (skip_space rest) as [|c rest'] eqn:Hr; [exact I |].
        apply skip_space_cons in Hr.
        repeat case_if; try exact I; [| simpl; lia].
        apply shorter_and_then; [apply Hrec; lia |].
        intros tail r Hlen. destruct tail; try exact I. exact Hlen.
    + destruct (skip_space s) as [|c rest] eqn:Hs; [exact I |].
      apply skip_space_cons in Hs.
      case_if; [| exact I].
      apply shorter_and_then.
      * apply shorter_weaken with (s' := rest);
          [now apply (string_body_shorter (String.length rest)) | lia].
      * intros key rest1 Hrest1.
        destruct (skip_space rest1) as [|c1 rest2] eqn:Hr1; [exact I |].
        apply skip_space_cons in Hr1.
        case_if; [| exact I].
        apply shorter_and_then; [apply Hrec; lia |].
        intros v rest3 Hrest3.
        destruct (skip_space rest3) as [|c3 rest4] eqn:Hr3; [exact I |].
        apply skip_space_cons in Hr3.
        repeat case_if; try exact I; [| simpl; lia].
        apply shorter_and_then; [apply Hrec; lia |].
        intros tail r Hlen. destruct tail; try exact I. exact Hlen.
Qed.

(** The result [None] of [parse_text] is a syntax error, never a lack of
    fuel. *)
Theorem parse_text_fuel (data : string) :
  parse (2 * String.length data + 2) 0 AValue data <> Exhausted.
Proof.
  pose proof (parse_shorter (2 * String.length data + 2) 0%N AValue data) as H.
  intros Heq. rewrite Heq in H. apply H. simpl. lia.
Qed.

End Syntax.

(** ** The provider registry filter *)

Module Registry.
Import Main.

Section Filter.

Variable providers : list Provider.

Lemma confMap_snoc (l : list Provider) (x : Provider) :
  confMap (l ++ [x]) = <[Name x := x]> (confMap l).
Proof. unfold confMap. now rewrite fold_left_app. Qed.

(** The map holds, under each configured name, the last provider
    configured under it. *)
Lemma confMap_lookup_Some (l : list Provider) (n : string) (p : Provider) :
  confMap l !! n = Some p -> p ∈ l /\ Name p = n.
Proof.
  induction l as [|x l IH] using rev_ind.
  - unfold confMap; simpl. rewrite lookup_empty. discriminate.
  - rewrite confMap_snoc, lookup_insert. case_decide as Hn.
    + intros [= <-]. split; [set_solver | exact Hn].
    + intros H. destruct (IH H) as [Hin Hname]. split; [set_solver | exact Hname].
Qed.

Lemma confMap_lookup_None (l : list Provider) (n : string) :
  confMap l !! n = None <-> n ∉ map Name l.
Proof.
  induction l as [|x l IH] using rev_ind.
  - unfold confMap; simpl. rewrite lookup_empty. split; [set_solver | done].
  - rewrite confMap_snoc, lookup_insert, map_app. simpl.
    case_decide as Hn.
    + split; [discriminate |]. intros H. exfalso. apply H. set_solver.
    + rewrite IH. set_solver.
Qed.

Lemma confMap_lookup_NoDup (l : list Provider) (p : Provider) :
  NoDup (map Name l) -> p ∈ l -> confMap l !! Name p = Some p.
Proof.
  induction l as [|x l IH] using rev_ind; [set_solver |].
  rewrite map_app. simpl. intros Hnd Hin.
  apply NoDup_app in Hnd as (Hl & Hdisj & _).
  rewrite confMap_snoc.
  apply elem_of_app in Hin as [Hin | Hin].
  - rewrite lookup_insert_ne; [now apply IH |].
    intros Heq. apply (Hdisj (Name p)).
    + apply list_elem_of_fmap_2 with (f := Name) in Hin. exact Hin.
    + rewrite Heq. set_solver.
  - apply list_elem_of_singleton in Hin as ->. apply lookup_insert_eq.
Qed.

(** The second loop, as a partial map over the filter. *)
Lemma filter_loop (names : list string) (acc : list Provider) :
  fold_left
    (fun filteredProviders providerName =>
       match confMap providers !! providerName with
       | Some providerConfig => filteredProviders ++ [providerConfig]
       | None => filteredProviders
       end) names acc
  = acc ++ omap (fun n => confMap providers !! n) names.
Proof.
  revert acc. induction names as [|n names IH]; intros acc; simpl.
  - now rewrite app_nil_r.
  - rewrite IH. destruct (confMap providers !! n); [| reflexivity].
    now rewrite <- app_assoc.
Qed.

Lemma providersToCall_omap (names : list string) :
  providersToCall providers (Some names)
  = omap (fun n => confMap providers !! n) names.
Proof. unfold providersToCall. now rewrite filter_loop. Qed.

Lemma providersToCall_names (names : list string) :
  map Name (providersToCall providers (Some names))
  = filter (fun n => n ∈ map Name providers) names.
Proof.
  rewrite providersToCall_omap.
  induction names as [|n names IH]; [reflexivity |]. simpl.
  destruct (confMap providers !! n) as [p|] eqn:Hn.
  - apply confMap_lookup_Some in Hn as [Hin Hname].
    rewrite filter_cons_True.
    + cbn [map]. f_equal; [exact Hname | exact IH].
    + rewrite <- Hname. now apply list_elem_of_fmap_2 with (f := Name) in Hin.
  - apply confMap_lookup_None in Hn. now rewrite filter_cons_False.
Qed.

Lemma providersToCall_elem (names : list string) (p : Provider) :
  p ∈ providersToCall providers (Some names) ->
  p ∈ providers /\ Name p ∈ names.
Proof.
  rewrite providersToCall_omap, list_elem_of_omap.
  intros (n & Hn & Hp). apply confMap_lookup_Some in Hp as [Hin <-]. done.
Qed.

End Filter.

(** C3, as the code has it. For a present filter the result lists, in the
    filter's order (not the configured order), the configured provider of
    every filter name that is configured; names that match no configured
    provider are dropped silently. *)
Theorem providersToCall_follows_filter_order
    (providers : list Provider) (names : list string) :
  providersToCall providers (Some names)
  = omap (fun n => confMap providers !! n) names
  /\ map Name (providersToCall providers (Some names))
     = filter (fun n => n ∈ map Name providers) names
  /\ forall p, p ∈ providersToCall providers (Some names) ->
               p ∈ providers /\ Name p ∈ names.
Proof.
  split; [apply providersToCall_omap |].
  split; [apply providersToCall_names |].
  intros p. apply providersToCall_elem.
Qed.

Lemma providersToCall_follows_filter_order_witness :
  provider1 ∈ providersToCall [provider1; provider2] (Some ["provider1"; "provider3"])
  /\ provider1 ∈ [provider1; provider2]
  /\ Name provider1 ∈ ["provider1"; "provider3"].
Proof.
  assert (H : provider1 ∈ providersToCall [provider1; provider2]
                            (Some ["provider1"; "provider3"])).
  { apply (bool_decide_unpack _). vm_compute. exact I. }
  split; [exact H |].
  exact (proj2 (proj2 (providersToCall_follows_filter_order
                         [provider1; provider2] ["provider1"; "provider3"]))
           provider1 H).
Defined.

(** C3 as stated fails: with the filter [provider2, provider1] the code
    answers in the filter's order, the specification's filter in the
    configured order. *)
Lemma providersToCall_not_in_configured_order :
  providersToCall [provider1; provider2] (Some ["provider2"; "provider1"])
  = [provider2; provider1]
  /\ filter_in_configured_order [provider1; provider2] ["provider2"; "provider1"]
     = [provider1; provider2]
  /\ providersToCall [provider1; provider2] (Some ["provider2"; "provider1"])
     <> filter_in_configured_order [provider1; provider2] ["provider2"; "provider1"].
Proof.
  assert (H1 : providersToCall [provider1; provider2] (Some ["provider2"; "provider1"])
               = [provider2; provider1]) by (vm_compute; reflexivity).
  assert (H2 : filter_in_configured_order [provider1; provider2]
                 ["provider2"; "provider1"] = [provider1; provider2])
    by (vm_compute; reflexivity).
  split; [exact H1 |]. split; [exact H2 |].
  rewrite H1, H2. discriminate.
Qed.

(** C4, as the code has it. A configured name occurs among the names of
    the result as often as it occurs in the filter; a name that is not
    configured never occurs. *)
Theorem providersToCall_keeps_duplicates
    (providers : list Provider) (names : list string) (n : string) :
  length (filter (fun m => m = n) (map Name (providersToCall providers (Some names))))
  = if decide (n ∈ map Name providers)
    then length (filter (fun m => m = n) names)
    else 0.
Proof.
  rewrite providersToCall_names.
  induction names as [|m names IH]; simpl.
  - now case_decide.
  - destruct (decide (m ∈ map Name providers)) as [Hm | Hm].
    + rewrite filter_cons_True by exact Hm.
      destruct (decide (m = n)) as [-> | Hne].
      * rewrite !filter_cons_True by reflexivity. simpl. rewrite IH.
        case_decide; [reflexivity | contradiction].
      * now rewrite !filter_cons_False by exact Hne.
    + rewrite filter_cons_False by exact Hm. rewrite IH.
      destruct (decide (m = n)) as [-> | Hne].
      * case_decide; [contradiction | reflexivity].
      * now rewrite (filter_cons_False _ m names) by exact Hne.
Qed.

(** C4 as stated fails: the filter [provider1, provider1] yields
    [provider1] twice. *)
Lemma providersToCall_duplicates_duplicate : ~ duplicates_do_not_duplicate.
Proof.
  intros H.
  specialize (H [provider1; provider2] ["provider1"; "provider1"] provider1).
  vm_compute in H. specialize (H (le_n 2)).
  inversion H as [| ? H']. inversion H'.
Qed.

(** C5. Filtering a list of providers with pairwise distinct names by its
    own names gives the list back. *)
Theorem providersToCall_own_names (providers : list Provider) :
  NoDup (map Name providers) ->
  providersToCall providers (Some (map Name providers)) = providers.
Proof.
  intros Hnd. rewrite providersToCall_omap.
  assert (H : forall l, (forall p, p ∈ l -> p ∈ providers) ->
                omap (fun n => confMap providers !! n) (map Name l) = l).
  { induction l as [|p l IH]; intros Hin; [reflexivity |]. simpl.
    rewrite (confMap_lookup_NoDup providers p Hnd) by (apply Hin; set_solver).
    f_equal. apply IH. intros q Hq. apply Hin. set_solver. }
  apply H. auto.
Qed.

Lemma providersToCall_own_names_witness :
  NoDup (map Name [provider1; provider2])
  /\ providersToCall [provider1; provider2] (Some (map Name [provider1; provider2]))
     = [provider1; provider2].
Proof.
  assert (Hnd : NoDup (map Name [provider1; provider2])).
  { apply (bool_decide_unpack _). vm_compute. exact I. }
  split; [exact Hnd |].
  exact (providersToCall_own_names [provider1; provider2] Hnd).
Defined.

(** C6. An empty filter selects nothing, an absent filter selects every
    configured provider in configured order; neither case fails, and on a
    non-empty configuration the two differ. *)
Theorem providersToCall_empty_and_absent (providers : list Provider) :
  providersToCall providers (Some []) = []
  /\ providersToCall providers None = providers
  /\ (providers <> [] ->
      providersToCall providers (Some []) <> providersToCall providers None).
Proof.
  split; [reflexivity |]. split; [reflexivity |].
  simpl. intros Hne Heq. apply Hne. now symmetry.
Qed.

Lemma providersToCall_empty_and_absent_witness :
  [provider1; provider2] <> []
  /\ providersToCall [provider1; provider2] (Some [])
     <> providersToCall [provider1; provider2] None.
Proof.
  assert (Hne : [provider1; provider2] <> []) by discriminate.
  split; [exact Hne |].
  exact (proj2 (proj2 (providersToCall_empty_and_absent [provider1; provider2])) Hne).
Defined.

End Registry.

(** ** The provider client *)

Module Client.
Import Bytes Main.

Lemma null_is_json : Json.parse_text "null" = Some Json.Null.
Proof. vm_compute. reflexivity. Qed.

Lemma Unmarshal_provider_response_null :
  Unmarshal_provider_response "null" = (None, None).
Proof. vm_compute. reflexivity. Qed.

Lemma Unmarshal_provider_response_valid :
  Unmarshal_provider_response valid_body
  = (Some {| ProviderIsValid := true |}, None).
Proof. vm_compute. reflexivity. Qed.

(** A text that is no JSON is reported as an error; the pointer stays nil
    without error for the text [null] only. *)
Lemma Unmarshal_provider_response_cases (data : string) :
  (Json.parse_text data = None ->
   Unmarshal_provider_response data = (None, Some Json.SyntaxError))
  /\ (Unmarshal_provider_response data = (None, None) <->
      Json.parse_text data = Some Json.Null).
Proof.
  unfold Unmarshal_provider_response.
  destruct (Json.parse_text data) as [[]|]; split; try discriminate;
    try reflexivity; try (split; [discriminate || reflexivity | discriminate || reflexivity]).
Qed.


(** Every result sent carries the name of the provider asked. *)
Lemma checkProvider_name
    (accountNumber : string) (provider : Provider) (post : transport)
    (result : BankAccountValidationResult) :
  checkProvider accountNumber provider post = Sends result ->
  ResultProvider result = Name provider.
Proof.
  unfold checkProvider, Marshal_entry.
  destruct (post _) as [|? []]; try (intros [= <-]; reflexivity).
  destruct (Unmarshal_provider_response _) as [[?|] [?|]];
    try (intros [= <-]; reflexivity); discriminate.
Qed.

Lemma Unmarshal_provider_response_verdict (b : bool) :
  Unmarshal_provider_response (verdict_body b)
  = (Some {| ProviderIsValid := b |}, None).
Proof. destruct b; vm_compute; reflexivity. Qed.

(** The call posts [accountNumber] as the one member of a JSON object to
    the provider's URL, and a verdict in the reply to that request is the
    outcome. *)
Lemma checkProvider_verdict
    (accountNumber : string) (provider : Provider) (post : transport)
    (status : Z) (b : bool) :
  post {| post_url := URL provider;
          post_content_type := "application/json";
          post_body := fst (Marshal_entry "accountNumber" accountNumber) |}
  = PostResponse status (ReadAll (verdict_body b)) ->
  checkProvider accountNumber provider post
  = Sends {| ResultProvider := Name provider; IsValid := b |}.
Proof.
  unfold checkProvider, Marshal_entry. cbn [fst]. intros ->.
  now rewrite Unmarshal_provider_response_verdict.
Qed.

(** C2, as the code has it. [checkProvider] hands no error to its caller.
    When the POST fails or times out, when reading the body fails or
    times out, or when the body does not decode, it sends
    [{provider.Name, false}]. When the body decodes to a response, it sends
    that response's verdict under the provider's name, whatever the HTTP
    status: the status is never looked at. In particular a reply with the
    body [{"isValid":b}] yields exactly [b]. (A body that decodes to a nil
    response is not covered here.) *)
Theorem checkProvider_absorbs_failures
    (accountNumber : string) (provider : Provider) (post : transport) :
  let defaultResponse := {| ResultProvider := Name provider; IsValid := false |} in
  match post (outbound accountNumber provider) with
  | PostError _ | PostResponse _ (ReadError _) =>
      checkProvider accountNumber provider post = Sends defaultResponse
  | PostResponse _ (ReadAll bodyBytes) =>
      match Unmarshal_provider_response bodyBytes with
      | (_, Some _) =>
          checkProvider accountNumber provider post = Sends defaultResponse
      | (Some providerResponse, None) =>
          checkProvider accountNumber provider post
          = Sends {| ResultProvider := Name provider;
                     IsValid := ProviderIsValid providerResponse |}
      | (None, None) => True
      end
  end
  /\ forall (status : Z) (b : bool),
       checkProvider accountNumber provider (replying status (verdict_body b) 0)
       = Sends {| ResultProvider := Name provider; IsValid := b |}.
Proof.
  split.
  - unfold checkProvider, outbound, Marshal_entry. cbn [fst].
    destruct (post _) as [|? []]; try reflexivity.
    destruct (Unmarshal_provider_response _) as [[?|] [?|]]; reflexivity.
  - intros status b. unfold checkProvider, Marshal_entry, replying.
    now rewrite Unmarshal_provider_response_verdict.
Qed.

(** C2 as stated fails: a reply with status 500 and the body
    [{"isValid":true}] is a failure by the specification's list, but the
    verdict sent is [true]. *)
Lemma checkProvider_trusts_failed_status : ~ every_failure_absorbed.
Proof.
  intros H.
  specialize (H "12345678" provider1 (replying 500 valid_body 0)).
  assert (Hfailed : call_failed (replying 500 valid_body 0
                                   (outbound "12345678" provider1)) = true)
    by (vm_compute; reflexivity).
  specialize (H Hfailed).
  unfold checkProvider, Marshal_entry, replying in H.
  rewrite Unmarshal_provider_response_valid in H.
  discriminate H.
Qed.

(** C8. Some provider reply is a well-formed JSON text and still sends
    [checkProvider] into the nil dereference: the body [null] decodes
    without error and leaves [providerResponse] nil. No result is sent,
    and [checkProviders] panics with it: the goroutine unwinds through its
    deferred [wg.Done()] and the process ends. *)
Theorem checkProvider_null_body_panics :
  exists bodyBytes : string,
    Json.parse_text bodyBytes = Some Json.Null
    /\ Unmarshal_provider_response bodyBytes = (None, None)
    /\ (forall (accountNumber : string) (provider : Provider) (status : Z),
          checkProvider accountNumber provider (replying status bodyBytes 0)
          = NilDereference)
    /\ (forall (accountNumber : string) (provider : Provider) (status : Z),
          checkProviders accountNumber [provider] (replying status bodyBytes)
            [Spawn; Collect; Call 0; Done 0; Abort 0] = Panics).
Proof.
  exists "null".
  split; [exact null_is_json |]. split; [exact Unmarshal_provider_response_null |].
  assert (Hnil : forall accountNumber provider status,
             checkProvider accountNumber provider (replying status "null" 0)
             = NilDereference).
  { intros. unfold checkProvider, Marshal_entry, replying.
    now rewrite Unmarshal_provider_response_null. }
  split; [exact Hnil |].
  intros accountNumber provider status.
  unfold checkProviders. cbn -[checkProvider].
  now rewrite Hnil.
Qed.

End Client.

(** ** Request validation and error responses *)

Module Requests.
Import Bytes Main.

Lemma handleError_ignores_err (err err' : option go_error) (message : string) :
  handleError err message = handleError err' message.
Proof. reflexivity. Qed.

Lemma html_safe_app (a b : string) :
  html_safe (a +:+ b) = html_safe a && html_safe b.
Proof.
  induction a as [|c a IH]; simpl; [reflexivity |].
  now rewrite IH, andb_assoc.
Qed.

Lemma HTMLEscape_safe (s : string) : html_safe s = true -> Json.HTMLEscape s = s.
Proof.
  induction s as [|c s IH]; simpl; [reflexivity |].
  intros H. apply andb_true_iff in H as [Hc Hs].
  unfold html_safe_byte in Hc. apply andb_true_iff in Hc as [Hlt Hne].
  apply negb_true_iff in Hne. rewrite Hne.
  assert (H226 : (code c =? 226)%N = false).
  { apply N.eqb_neq. apply N.ltb_lt in Hlt. lia. }
  rewrite H226. simpl. rewrite (IH Hs).
  destruct s as [|c1 [|c2 s2]]; reflexivity.
Qed.

Lemma plain_html_safe (s : string) : plain s = true -> html_safe s = true.
Proof.
  induction s as [|c s IH]; simpl; [reflexivity |].
  intros H. apply andb_true_iff in H as [Hc Hs]. rewrite (IH Hs), andb_true_r.
  unfold plain_byte, between in Hc. unfold html_safe_byte.
  apply andb_true_iff in Hc as [Hrange Hne].
  apply andb_true_iff in Hrange as [_ Hle].
  apply negb_true_iff in Hne.
  apply orb_false_iff in Hne as [Hne H38].
  apply orb_false_iff in Hne as [Hne H62].
  apply orb_false_iff in Hne as [Hne H60].
  rewrite H60, H62, H38. simpl. rewrite andb_true_r.
  apply N.ltb_lt. apply N.leb_le in Hle. lia.
Qed.

Lemma escape_body_plain (s : string) : plain s = true -> Json.escape_body 0 s = s.
Proof.
  induction s as [|c s IH]; simpl; [reflexivity |].
  intros H. apply andb_true_iff in H as [Hc Hs]. rewrite (IH Hs).
  unfold plain_byte, between in Hc.
  apply andb_true_iff in Hc as [Hrange Hne].
  apply andb_true_iff in Hrange as [Hge Hle].
  apply negb_true_iff in Hne.
  apply orb_false_iff in Hne as [Hne H38].
  apply orb_false_iff in Hne as [Hne H62].
  apply orb_false_iff in Hne as [Hne H60].
  apply orb_false_iff in Hne as [H34 H92].
  apply N.leb_le in Hge, Hle.
  rewrite H34, H92, H60, H62, H38. simpl.
  replace (code c =? 8)%N with false by (symmetry; apply N.eqb_neq; lia).
  replace (code c =? 12)%N with false by (symmetry; apply N.eqb_neq; lia).
  replace (code c =? 10)%N with false by (symmetry; apply N.eqb_neq; lia).
  replace (code c =? 13)%N with false by (symmetry; apply N.eqb_neq; lia).
  replace (code c =? 9)%N with false by (symmetry; apply N.eqb_neq; lia).
  replace (code c <? 32)%N with false by (symmetry; apply N.ltb_ge; lia).
  replace (code c <? 128)%N with true by (symmetry; apply N.ltb_lt; lia).
  reflexivity.
Qed.

(** For a message of plain bytes the body is the message between the
    fixed brackets, byte for byte. *)
Lemma handleError_plain_body (err : option go_error) (message : string) :
  plain message = true ->
  Body (handleError err message)
  = "{" +:+ quoted "error" +:+ ":" +:+ quoted message +:+ "}".
Proof.
  intros Hplain. unfold handleError, Marshal_entry. cbn [Body].
  unfold Json.encode_string.
  rewrite (escape_body_plain message Hplain).
  replace (Json.escape_body 0 "error") with "error" by (vm_compute; reflexivity).
  apply HTMLEscape_safe.
  unfold quoted. cbn [String.append html_safe].
  rewrite !html_safe_app. cbn [String.append html_safe].
  rewrite !html_safe_app, (plain_html_safe message Hplain).
  vm_compute. reflexivity.
Qed.

(** An error from [unmarshalRequest] is built by [handleError] with one
    of its two messages, and comes without a request. *)
Lemma unmarshalRequest_error_shape (request : Request)
    (validationRequest : option BankAccountValidationRequest)
    (errorResponse : Response) :
  unmarshalRequest request = Returns (validationRequest, Some errorResponse) ->
  validationRequest = None
  /\ exists message, message ∈ request_messages
                     /\ errorResponse = handleError None message.
Proof.
  unfold unmarshalRequest, request_messages.
  destruct (Unmarshal_request _) as [[r|] [e|]].
  - intros [= <- <-]. split; [reflexivity |]. eexists. split; [| reflexivity]. set_solver.
  - destruct (AccountNumber r).
    + discriminate.
    + intros [= <- <-]. split; [reflexivity |]. eexists. split; [| reflexivity]. set_solver.
  - intros [= <- <-]. split; [reflexivity |]. eexists. split; [| reflexivity]. set_solver.
  - discriminate.
Qed.

(** A request that comes back from [unmarshalRequest] has an account
    number. *)
Lemma unmarshalRequest_request_shape (request : Request)
    (validationRequest : BankAccountValidationRequest)
    (errorResponse : option Response) :
  unmarshalRequest request = Returns (Some validationRequest, errorResponse) ->
  errorResponse = None /\ is_Some (AccountNumber validationRequest).
Proof.
  unfold unmarshalRequest.
  destruct (Unmarshal_request _) as [[r|] [e|]]; try discriminate.
  destruct (AccountNumber r) eqn:Hacc; [| discriminate].
  intros [= <- <-]. rewrite Hacc. split; [reflexivity | eauto].
Qed.

Lemma Handler_error (config : Config) (request : Request)
    (world : nat -> transport) (schedule : list action)
    (validationRequest : option BankAccountValidationRequest)
    (errorResponse : Response) :
  unmarshalRequest request = Returns (validationRequest, Some errorResponse) ->
  Handler config request world schedule = Returns (errorResponse, None).
Proof. unfold Handler. intros ->. now destruct validationRequest. Qed.

Lemma Handler_accepted (config : Config) (request : Request)
    (world : nat -> transport) (schedule : list action)
    (accountNumber : string) (filter : option (list string)) :
  unmarshalRequest request
  = Returns (Some {| AccountNumber := Some accountNumber;
                     RequestProviders := filter |}, None) ->
  Handler config request world schedule
  = reply (checkProviders accountNumber
             (providersToCall (Providers config) filter) world schedule).
Proof.
  unfold Handler. intros ->. cbn [AccountNumber RequestProviders].
  destruct (checkProviders _ _ _ _); reflexivity.
Qed.

(** Members whose key is not taken for [accountNumber] leave the account
    number of the struct alone. *)
Lemma request_member_other_keys (members : list (string * Json.value))
    (d : Json.decoding (option string * option Json.slice)) :
  forallb (fun member => negb (Json.fold_equal "accountNumber" (fst member)))
    members = true ->
  fst (Json.target (fold_left request_member members d)) = fst (Json.target d).
Proof.
  revert d. induction members as [|[key v] members IH]; intros d; [reflexivity |].
  cbn [forallb fold_left fst]. intros H.
  apply andb_true_iff in H as [Hkey Hrest]. apply negb_true_iff in Hkey.
  rewrite (IH _ Hrest). unfold request_member. rewrite Hkey.
  destruct d as [[account providers] saved]. cbn [Json.target].
  destruct (Json.fold_equal "providers" key); [| reflexivity].
  destruct (Json.store_strings_ptr v providers) as [providers' []]; reflexivity.
Qed.

(** The part of C7 the code delivers: a body that is no JSON, or a JSON
    value other than [null] without an account number member, is answered
    with an error response of [unmarshalRequest], whatever the
    configuration, the remote side and the schedule. *)
Lemma Handler_rejects_malformed (request : Request) :
  malformed_request request = true ->
  Json.parse_text (RequestBody request) <> Some Json.Null ->
  exists errorResponse : Response,
    unmarshalRequest request = Returns (None, Some errorResponse)
    /\ forall config world schedule,
         Handler config request world schedule = Returns (errorResponse, None).
Proof.
  unfold malformed_request. intros Hbad Hnull.
  assert (H : exists errorResponse,
             unmarshalRequest request = Returns (None, Some errorResponse)).
  { unfold unmarshalRequest, Unmarshal_request.
    destruct (Json.parse_text (RequestBody request)) as [v|]; [| eauto].
    destruct v as [| | | | |members]; try (now eauto).
    cbn [lacks_accountNumber] in Hbad.
    pose proof (request_member_other_keys members
                  (Json.Decoding (None, None) None) Hbad) as Hacc.
    cbn [Json.target fst] in Hacc.
    destruct (Json.saved _); [now eauto |].
    cbn [AccountNumber]. rewrite Hacc. now eauto. }
  destruct H as [errorResponse H]. exists errorResponse.
  split; [exact H |]. intros. now apply Handler_error with (validationRequest := None).
Qed.

(** C7 fails on the request body [null]. The text is JSON and has no
    account number, yet decoding it leaves [validationRequest] nil without
    error, and [unmarshalRequest] dereferences it: [Handler] panics and
    returns no error response. *)
Theorem Handler_null_body_panics :
  Json.parse_text "null" = Some Json.Null
  /\ malformed_request {| RequestBody := "null" |} = true
  /\ unmarshalRequest {| RequestBody := "null" |} = Panics
  /\ (forall config world schedule,
        Handler config {| RequestBody := "null" |} world schedule = Panics)
  /\ ~ malformed_requests_rejected.
Proof.
  assert (Hu : unmarshalRequest {| RequestBody := "null" |} = Panics)
    by (vm_compute; reflexivity).
  assert (Hm : malformed_request {| RequestBody := "null" |} = true)
    by (vm_compute; reflexivity).
  split; [vm_compute; reflexivity |]. split; [exact Hm |]. split; [exact Hu |].
  split.
  - intros. unfold Handler. now rewrite Hu.
  - intros H. destruct (H _ Hm) as (errorResponse & Herr & _).
    rewrite Hu in Herr. discriminate.
Qed.

Lemma readConfig_error_shape (yaml_Unmarshal : yaml_decoder)
    (environ : gmap string string) (config : option Config)
    (errorResponse : Response) :
  readConfig yaml_Unmarshal environ = (config, Some errorResponse) ->
  config = None
  /\ exists message, message ∈ config_messages
                     /\ errorResponse = handleError None message.
Proof.
  unfold readConfig, config_messages.
  destruct (environ !! "PROVIDERS") as [providerYaml|].
  - destruct (yaml_Unmarshal providerYaml) as [[c|] [e|]]; try discriminate;
      intros [= <- <-]; (split; [reflexivity |]); eexists;
      (split; [| reflexivity]); set_solver.
  - intros [= <- <-]. split; [reflexivity |]. eexists.
    split; [| reflexivity]. set_solver.
Qed.

(** [Handler] returns no Go error, and its response is either the success
    response or an error response of [unmarshalRequest]; the 404 branch
    is dead, since [json.Marshal] cannot fail on the response type. *)
Lemma Handler_response_shape (config : Config) (request : Request)
    (world : nat -> transport) (schedule : list action)
    (response : Response) (err : option go_error) :
  Handler config request world schedule = Returns (response, err) ->
  err = None
  /\ ((StatusCode response = 200%Z
       /\ Headers response = {[ "Content-Type" := "application/json" ]})
      \/ exists message, message ∈ request_messages
                         /\ response = handleError None message).
Proof.
  unfold Handler.
  destruct (unmarshalRequest request) as [returned| |] eqn:Hu; try discriminate.
  destruct returned as [vr [er|]].
  - destruct vr; intros [= <- <-]; (split; [reflexivity |]); right;
      now apply unmarshalRequest_error_shape in Hu.
  - destruct vr as [vr|]; [| discriminate].
    destruct (AccountNumber vr); [| discriminate].
    destruct (checkProviders _ _ _ _); try discriminate.
    unfold Marshal_response. intros [= <- <-]. split; [reflexivity |].
    left. split; reflexivity.
Qed.

(** C10. Every error response comes from [handleError]: status 500,
    content type [application/json], not base64, and a body that is the
    JSON object with the one member [error] holding the message (for a
    message of plain bytes: the message itself between the fixed
    brackets). [unmarshalRequest] and [readConfig] build their error
    responses this way from their fixed messages, [main] starts
    [OnlyErrors] on exactly the error response of [readConfig], and
    [Handler] returns nothing but the success response with status 200
    or an error response of [unmarshalRequest]. *)
Theorem error_responses_by_handleError :
  (forall err message,
     StatusCode (handleError err message) = 500%Z
     /\ IsBase64Encoded (handleError err message) = false
     /\ Headers (handleError err message) = {[ "Content-Type" := "application/json" ]}
     /\ Body (handleError err message)
        = Json.HTMLEscape ("{" +:+ Json.encode_string "error" +:+ ":"
                               +:+ Json.encode_string message +:+ "}")
     /\ (plain message = true ->
         Body (handleError err message)
         = "{" +:+ quoted "error" +:+ ":" +:+ quoted message +:+ "}"))
  /\ Forall (fun message => plain message = true)
       (request_messages ++ config_messages)
  /\ (forall request validationRequest errorResponse,
        unmarshalRequest request = Returns (validationRequest, Some errorResponse) ->
        validationRequest = None
        /\ exists message, message ∈ request_messages
                           /\ errorResponse = handleError None message)
  /\ (forall yaml_Unmarshal environ config errorResponse,
        readConfig yaml_Unmarshal environ = (config, Some errorResponse) ->
        config = None
        /\ exists message, message ∈ config_messages
                           /\ errorResponse = handleError None message)
  /\ (forall yaml_Unmarshal environ errorResponse,
        main yaml_Unmarshal environ = StartOnlyErrors errorResponse ->
        exists message, message ∈ config_messages
                        /\ OnlyErrors errorResponse = handleError None message)
  /\ (forall config request world schedule response err,
        Handler config request world schedule = Returns (response, err) ->
        err = None
        /\ ((StatusCode response = 200%Z
             /\ Headers response = {[ "Content-Type" := "application/json" ]})
            \/ exists message, message ∈ request_messages
                               /\ response = handleError None message)).
Proof.
  split.
  { intros err message. repeat split. apply handleError_plain_body. }
  split.
  { unfold request_messages, config_messages. cbn [app].
    repeat constructor. }
  split; [exact unmarshalRequest_error_shape |].
  split; [exact readConfig_error_shape |].
  split; [| exact Handler_response_shape].
  intros yaml_Unmarshal environ errorResponse. unfold main, OnlyErrors.
  destruct (readConfig yaml_Unmarshal environ) as [config [er|]] eqn:Hr;
    [| discriminate].
  intros [= <-]. now apply readConfig_error_shape in Hr.
Qed.

Lemma error_responses_by_handleError_witness :
  plain "ENVVAR PROVIDERS is required" = true
  /\ readConfig (yaml_accepting "providers: []") empty
     = (None, Some (handleError None "ENVVAR PROVIDERS is required"))
  /\ Body (handleError None "ENVVAR PROVIDERS is required")
     = "{" +:+ quoted "error" +:+ ":" +:+ quoted "ENVVAR PROVIDERS is required" +:+ "}"
  /\ exists message,
       message ∈ config_messages
       /\ handleError None "ENVVAR PROVIDERS is required" = handleError None message.
Proof.
  assert (Hplain : plain "ENVVAR PROVIDERS is required" = true) by reflexivity.
  assert (Hread : readConfig (yaml_accepting "providers: []") empty
                  = (None, Some (handleError None "ENVVAR PROVIDERS is required")))
    by reflexivity.
  split; [exact Hplain |]. split; [exact Hread |].
  split.
  - exact (proj2 (proj2 (proj2 (proj2
             (proj1 error_responses_by_handleError None
                      "ENVVAR PROVIDERS is required")))) Hplain).
  - exact (proj2 (proj1 (proj2 (proj2 (proj2 error_responses_by_handleError)))
                    (yaml_accepting "providers: []") empty None _ Hread)).
Defined.

End Requests.

(** ** The aggregator *)

Module Aggregator.
Import Bytes Main.

Section Run.

Variable accountNumber : string.
Variable world : nat -> transport.
Variable providers : list Provider.

Lemma owed_app (i : nat) (a b : list goroutine) :
  owed accountNumber world i (a ++ b) = owed accountNumber world i a ++ owed accountNumber world (i + length a) b.
Proof.
  revert i. induction a as [|g a IH]; intros i; simpl.
  - now rewrite Nat.add_0_r.
  - rewrite IH, <- app_assoc. do 3 f_equal. lia.
Qed.

(** A goroutine table split at an entry, and the table with that entry
    replaced. *)
Lemma split_at (gs : list goroutine) (i : nat) (g : goroutine) :
  gs !! i = Some g ->
  exists a b, gs = a ++ g :: b /\ length a = i
              /\ forall g', <[i := g']> gs = a ++ g' :: b.
Proof.
  intros H. apply list_elem_of_split_length in H as (a & b & -> & ->).
  exists a, b. split; [reflexivity |]. split; [reflexivity |].
  intros g'. rewrite insert_app_r_alt by lia.
  now rewrite Nat.sub_diag.
Qed.

Lemma holds_le_sum (gs : list goroutine) (i : nat) (g : goroutine) :
  gs !! i = Some g -> holds g <= sum_list_with holds gs.
Proof.
  intros H. destruct (split_at gs i g H) as (a & b & -> & _ & _).
  rewrite sum_list_with_app. simpl. lia.
Qed.

(** At counter zero every goroutine has run its [wg.Done]. *)
Lemma all_done (gs : list goroutine) :
  sum_list_with holds gs = 0 ->
  Forall (fun g => g = Finished \/ g = Unrecovered) gs.
Proof.
  induction gs as [|g gs IH]; simpl; intros H; constructor.
  - destruct g; simpl in H; try lia; auto.
  - apply IH. lia.
Qed.

Lemma done_owe_nothing (gs : list goroutine) (i : nat) :
  Forall (fun g => g = Finished \/ g = Unrecovered) gs ->
  owed accountNumber world i gs = [] /\ map wake gs = gs
  /\ due accountNumber world i gs = 0.
Proof.
  intros H. revert i. induction H as [|g gs [-> | ->] _ IH]; intros i; simpl;
    [done | |]; destruct (IH (S i)) as (-> & -> & ->); done.
Qed.

Lemma drop_cons_lookup (l : list Provider) (n : nat) (p : Provider)
    (rest : list Provider) :
  drop n l = p :: rest -> l !! n = Some p /\ drop (S n) l = rest.
Proof.
  revert n. induction l as [|x l IH]; intros [|n]; simpl; try discriminate.
  - intros [= -> ->]. split; [reflexivity | now rewrite drop_0].
  - apply IH.
Qed.

Lemma initial_invariant :
  invariant accountNumber world providers (initial providers).
Proof.
  unfold invariant, initial; simpl. rewrite drop_0.
  repeat split; done.
Qed.

(** Replacing goroutine [i] by one that owes the same and holds the same
    unit of the counter keeps the invariant's ledger entries. *)
Lemma owed_replace (gs : list goroutine) (i : nat) (g g' : goroutine) :
  gs !! i = Some g ->
  exists a b,
    gs = a ++ g :: b
    /\ <[i := g']> gs = a ++ g' :: b
    /\ owed accountNumber world 0 gs
       = owed accountNumber world 0 a ++ owed accountNumber world i [g]
         ++ owed accountNumber world (S i) b
    /\ owed accountNumber world 0 (<[i := g']> gs)
       = owed accountNumber world 0 a ++ owed accountNumber world i [g']
         ++ owed accountNumber world (S i) b.
Proof.
  intros H. destruct (split_at gs i g H) as (a & b & Hgs & Hlen & Hins).
  exists a, b. split; [exact Hgs |]. split; [apply Hins |].
  rewrite (Hins g'), Hgs, !owed_app, Hlen. simpl.
  rewrite !app_nil_r. split; reflexivity.
Qed.

Lemma sum_replace (f : goroutine -> nat) (gs : list goroutine) (i : nat)
    (g g' : goroutine) :
  gs !! i = Some g ->
  sum_list_with f (<[i := g']> gs) + f g = sum_list_with f gs + f g'.
Proof.
  intros H. destruct (split_at gs i g H) as (a & b & Hgs & _ & Hins).
  rewrite (Hins g'), Hgs, !sum_list_with_app. simpl. lia.
Qed.

Lemma due_app (i : nat) (a b : list goroutine) :
  due accountNumber world i (a ++ b)
  = due accountNumber world i a + due accountNumber world (i + length a) b.
Proof.
  revert i. induction a as [|g a IH]; intros i; simpl.
  - now rewrite Nat.add_0_r.
  - rewrite IH. replace (S i + length a) with (i + S (length a)) by lia. lia.
Qed.

Lemma due_replace (gs : list goroutine) (i : nat) (g g' : goroutine) :
  gs !! i = Some g ->
  due accountNumber world 0 (<[i := g']> gs) + stage accountNumber world i g
  = due accountNumber world 0 gs + stage accountNumber world i g'.
Proof.
  intros H. destruct (split_at gs i g H) as (a & b & Hgs & Hlen & Hins).
  rewrite (Hins g'), Hgs, !due_app, Hlen. simpl. lia.
Qed.

Lemma tracked_after_insert (gs : list goroutine) (i : nat) (g' : goroutine) :
  tracked accountNumber world providers i g' ->
  (forall j g, gs !! j = Some g -> tracked accountNumber world providers j g) ->
  forall j g, <[i := g']> gs !! j = Some g ->
              tracked accountNumber world providers j g.
Proof.
  intros Hg' Hgs j g. destruct (decide (i = j)) as [<- | Hne].
  - destruct (decide (i < length gs)) as [Hlt | Hge].
    + rewrite list_lookup_insert_eq by exact Hlt. now intros [= <-].
    + rewrite list_insert_ge by lia. apply Hgs.
  - rewrite list_lookup_insert_ne by exact Hne. apply Hgs.
Qed.

(** Every enabled step keeps the invariant or is the end of the process
    after a nil dereference: the WaitGroup counter never goes negative,
    nothing is sent on the closed channel and the channel is never closed
    under a waiting sender. A step that does not end the process uses up
    one unit of the measure. *)
Lemma exec_preserves (a : action) (s : state) (m : machine) :
  invariant accountNumber world providers s ->
  exec accountNumber world a s = Some m ->
  match m with
  | Live s' =>
      invariant accountNumber world providers s'
      /\ S (measure accountNumber world s') = measure accountNumber world s
  | Crashed =>
      exists i p, providers !! i = Some p
                  /\ checkProvider accountNumber p (world i) = NilDereference
  end.
Proof.
  destruct s as [pc gs wg closed results].
  unfold invariant, measure. cbn [Main.pc Main.goroutines Main.wg Main.closed Main.results].
  intros (Hledger & Htracked & Hrest & Hwg & Hclosed & Hpc).
  destruct a as [| |i|i|i|i| |]; cbn [exec Main.pc Main.goroutines Main.wg Main.closed Main.results].
  - (* Spawn *)
    destruct pc as [[|p rest]| |]; try discriminate.
    intros [= <-].
    cbn [Main.pc Main.goroutines Main.wg Main.closed Main.results remaining_of] in *.
    apply drop_cons_lookup in Hrest as [Hp Hrest].
    rewrite owed_app, due_app, length_app, !sum_list_with_app.
    cbn [length owed due due_from stage plus].
    rewrite Nat.add_1_r, app_nil_r, !Nat.add_0_r.
    repeat split.
    + rewrite <- Hledger. cbn [expected_from]. rewrite <- !app_assoc. reflexivity.
    + intros i g Hi. destruct (decide (i < length gs)) as [Hlt | Hge].
      * rewrite lookup_app_l in Hi by exact Hlt. now apply Htracked.
      * rewrite lookup_app_r in Hi by lia.
        destruct (i - length gs) as [|k] eqn:Hk; [| now destruct k].
        injection Hi as <-. replace i with (length gs) by lia.
        exists p. split; [exact Hp | reflexivity].
    + exact Hrest.
    + simpl. lia.
    + rewrite Hpc. discriminate.
    + exact Hpc.
    + rewrite Hpc. simpl. lia.
  - (* Collect *)
    destruct pc as [[|p rest]| |]; try discriminate.
    intros [= <-].
    cbn [Main.pc Main.goroutines Main.wg Main.closed Main.results remaining_of] in *.
    repeat split; try assumption; simpl; lia.
  - (* Call *)
    destruct (gs !! i) as [[p| | | | |]|] eqn:Hi; try discriminate.
    destruct (Htracked i _ Hi) as (p' & Hp & <-).
    pose proof (holds_le_sum gs i _ Hi) as Hholds. cbn [holds] in Hholds.
    intros [= <-].
    cbn [Main.pc Main.goroutines Main.wg Main.closed Main.results] in *.
    assert (Hopen : closed = false).
    { destruct closed; [| reflexivity]. specialize (Hclosed eq_refl). lia. }
    subst closed.
    set (next := match checkProvider accountNumber p (world i) with
                 | Sends result => Blocked result
                 | NilDereference => Panicking
                 end).
    destruct (owed_replace gs i _ next Hi) as (a & b & _ & _ & Hold & Hnew).
    pose proof (sum_replace holds gs i _ next Hi) as Hsum.
    pose proof (due_replace gs i _ next Hi) as Hstage.
    rewrite length_insert.
    assert (Hnext : owed accountNumber world i [next]
                    = owed accountNumber world i [Dispatched p]
                    /\ holds next = 1
                    /\ tracked accountNumber world providers i next
                    /\ S (stage accountNumber world i next)
                       = stage accountNumber world i (Dispatched p)).
    { subst next. cbn [owed stage]. unfold expected, tracked.
      destruct (checkProvider accountNumber p (world i)) as [result|] eqn:Hcall;
        repeat split; eauto. }
    destruct Hnext as (Howed & Hholds' & Htracked' & Hstage').
    cbn [holds] in Hsum.
    repeat split; try assumption.
    + rewrite <- Hledger, Hnew, Hold, Howed. reflexivity.
    + now apply tracked_after_insert.
    + lia.
    + lia.
  - (* Receive *)
    destruct pc; try discriminate.
    destruct (gs !! i) as [[p|result| | | |]|] eqn:Hi; try discriminate.
    destruct closed; [discriminate |].
    intros [= <-].
    cbn [Main.pc Main.goroutines Main.wg Main.closed Main.results remaining_of] in *.
    destruct (owed_replace gs i _ Unwinding Hi)
      as (a & b & _ & _ & Hold & Hnew).
    pose proof (sum_replace holds gs i _ Unwinding Hi) as Hsum.
    pose proof (due_replace gs i _ Unwinding Hi) as Hstage.
    cbn [holds stage] in Hsum, Hstage.
    rewrite length_insert.
    repeat split; try assumption.
    + rewrite <- Hledger, Hnew, Hold. cbn [owed]. rewrite !app_nil_r.
      rewrite <- !app_assoc. apply Permutation_app_head.
      cbn [app]. first [apply Permutation_middle | symmetry; apply Permutation_middle].
    + apply tracked_after_insert; [| exact Htracked].
      destruct (Htracked i _ Hi) as (p & Hp & Hcall).
      exists p. split; [exact Hp |]. cbn beta iota. now rewrite Hcall.
    + lia.
    + lia.
  - (* Done *)
    destruct (gs !! i) as [[p|result| | | |]|] eqn:Hi; try discriminate;
      pose proof (holds_le_sum gs i _ Hi) as Hholds; cbn [holds] in Hholds.
    + (* the goroutine returns *)
      replace (0 <? wg)%Z with true by (symmetry; apply Z.ltb_lt; lia).
      intros [= <-].
      cbn [Main.pc Main.goroutines Main.wg Main.closed Main.results] in *.
      destruct (owed_replace gs i _ Finished Hi)
        as (a & b & _ & _ & Hold & Hnew).
      pose proof (sum_replace holds gs i _ Finished Hi) as Hsum.
      pose proof (due_replace gs i _ Finished Hi) as Hstage.
      cbn [holds stage] in Hsum, Hstage.
      rewrite length_insert.
      repeat split; try assumption.
      * rewrite <- Hledger, Hnew, Hold. reflexivity.
      * apply tracked_after_insert; [| exact Htracked].
        exact (Htracked i _ Hi).
      * lia.
      * intros Hc. specialize (Hclosed Hc). lia.
      * lia.
    + (* the goroutine unwinds from its panic *)
      intros [= <-].
      cbn [Main.pc Main.goroutines Main.wg Main.closed Main.results] in *.
      destruct (owed_replace gs i _ Unrecovered Hi)
        as (a & b & _ & _ & Hold & Hnew).
      pose proof (sum_replace holds gs i _ Unrecovered Hi) as Hsum.
      pose proof (due_replace gs i _ Unrecovered Hi) as Hstage.
      cbn [holds stage] in Hsum, Hstage.
      rewrite length_insert.
      repeat split; try assumption.
      * rewrite <- Hledger, Hnew, Hold. reflexivity.
      * apply tracked_after_insert; [| exact Htracked].
        exact (Htracked i _ Hi).
      * lia.
      * intros Hc. specialize (Hclosed Hc). lia.
      * lia.
  - (* Abort *)
    destruct (gs !! i) as [[p|result| | | |]|] eqn:Hi; try discriminate.
    intros [= <-]. destruct (Htracked i _ Hi) as (p & Hp & Hcall). eauto.
  - (* Close *)
    destruct pc as [rest| |]; try discriminate;
      (destruct (wg =? 0)%Z eqn:Hzero; [| discriminate]);
      (destruct closed; [discriminate |]);
      apply Z.eqb_eq in Hzero;
      assert (Hsum : sum_list_with holds gs = 0) by lia;
      pose proof (all_done gs Hsum) as Hfin;
      destruct (done_owe_nothing gs 0 Hfin) as (_ & -> & _);
      intros [= <-];
      cbn [Main.pc Main.goroutines Main.wg Main.closed Main.results] in *;
      repeat split; try assumption; try reflexivity; try discriminate; lia.
  - (* Return *)
    destruct pc; try discriminate. destruct closed; [| discriminate].
    intros [= <-].
    cbn [Main.pc Main.goroutines Main.wg Main.closed Main.results remaining_of] in *.
    repeat split; try assumption; simpl; lia.
Qed.

Lemma run_app (schedule extension : list action) (m : machine) :
  run accountNumber world (schedule ++ extension) m
  = match run accountNumber world schedule m with
    | Some m' => run accountNumber world extension m'
    | None => None
    end.
Proof.
  revert m. induction schedule as [|a schedule IH]; intros m; [reflexivity |].
  cbn [app run]. destruct m as [s|].
  - destruct (exec accountNumber world a s); [apply IH | reflexivity].
  - clear IH. induction extension as [|b extension IH']; reflexivity.
Qed.

Lemma run_crashed (schedule : list action) :
  run accountNumber world schedule Crashed = Some Crashed.
Proof. destruct schedule; reflexivity. Qed.

(** Along a run the invariant holds, and the process ends only after a
    nil dereference. A run of [n] steps that has not ended the process has
    used up [n] units of the measure. *)
Lemma run_preserves (schedule : list action) (s : state) (m : machine) :
  invariant accountNumber world providers s ->
  run accountNumber world schedule (Live s) = Some m ->
  match m with
  | Live s' =>
      invariant accountNumber world providers s'
      /\ measure accountNumber world s' + length schedule
         = measure accountNumber world s
  | Crashed =>
      exists i p, providers !! i = Some p
                  /\ checkProvider accountNumber p (world i) = NilDereference
  end.
Proof.
  revert s. induction schedule as [|a schedule IH]; intros s Hinv; cbn [run].
  - intros [= <-]. split; [exact Hinv |]. simpl. lia.
  - destruct (exec accountNumber world a s) as [m'|] eqn:Hexec; [| discriminate].
    pose proof (exec_preserves a s m' Hinv Hexec) as Hstep.
    destruct m' as [s'|].
    + destruct Hstep as [Hinv' Hmeasure]. intros Hrun.
      specialize (IH s' Hinv' Hrun). destruct m as [s''|]; [| exact IH].
      destruct IH as [Hinv'' Hmeasure']. split; [exact Hinv'' |].
      simpl. lia.
    + rewrite run_crashed. now intros [= <-].
Qed.

(** When no call meets the nil dereference, no goroutine is on the panic
    path and the process does not end. *)
Lemma run_answers (schedule : list action) (s : state) (m : machine) :
  answers accountNumber providers world ->
  invariant accountNumber world providers s ->
  run accountNumber world schedule (Live s) = Some m ->
  exists s', m = Live s'
             /\ invariant accountNumber world providers s'
             /\ measure accountNumber world s' + length schedule
                = measure accountNumber world s.
Proof.
  intros Hanswers Hinv Hrun.
  pose proof (run_preserves schedule s m Hinv Hrun) as H.
  destruct m as [s'|].
  - destruct H as [Hinv' Hmeasure]. exists s'. auto.
  - destruct H as (i & p & Hp & Hnil). now destruct (Hanswers i p Hp).
Qed.

Lemma unfinished_goroutine (gs : list goroutine) :
  0 < sum_list_with holds gs ->
  exists i g, gs !! i = Some g /\ holds g = 1.
Proof.
  induction gs as [|g gs IH]; simpl; [lia |].
  destruct (holds g) eqn:Hg.
  - intros H. destruct (IH H) as (i & g' & Hi & Hg').
    exists (S i), g'. split; assumption.
  - intros _. exists 0, g. split; [reflexivity |].
    destruct g; simpl in *; congruence.
Qed.

(** No deadlock: until [checkProviders] has returned, some action other
    than the end of the process is enabled. *)
Lemma progress (s : state) :
  invariant accountNumber world providers s ->
  pc s <> Returned ->
  exists a s', exec accountNumber world a s = Some (Live s').
Proof.
  destruct s as [pc gs wg closed results]. unfold invariant.
  cbn [Main.pc Main.goroutines Main.wg Main.closed Main.results].
  intros (_ & _ & _ & Hwg & Hclosed & Hpc) Hnot.
  destruct pc as [[|p rest]| |]; [| | | now destruct Hnot].
  - exists Collect. eexists. reflexivity.
  - exists Spawn. eexists. reflexivity.
  - destruct closed.
    + exists Return. eexists. reflexivity.
    + destruct (sum_list_with holds gs) as [|n] eqn:Hsum.
      * exists Close. cbn [exec Main.pc Main.wg Main.closed Main.goroutines].
        rewrite Hwg. eexists. reflexivity.
      * destruct (unfinished_goroutine gs) as (i & g & Hi & Hg); [lia |].
        destruct g as [p|result| | | |]; try discriminate.
        -- exists (Call i). cbn [exec Main.goroutines Main.closed]. rewrite Hi.
           eexists. reflexivity.
        -- exists (Receive i). cbn [exec Main.pc Main.goroutines Main.closed].
           rewrite Hi. eexists. reflexivity.
        -- exists (Done i). cbn [exec Main.goroutines Main.wg]. rewrite Hi.
           eexists. reflexivity.
        -- exists (Done i). cbn [exec Main.goroutines Main.wg]. rewrite Hi.
           eexists. reflexivity.
Qed.

(** At the return nothing is owed any more. *)
Lemma returned_nothing_owed (s : state) :
  invariant accountNumber world providers s ->
  pc s = Returned ->
  owed accountNumber world 0 (goroutines s) = []
  /\ due accountNumber world 0 (goroutines s) = 0
  /\ closed s = true.
Proof.
  intros (_ & _ & _ & Hwg & Hclosed & Hpc) Hret.
  rewrite Hret in Hpc. specialize (Hclosed Hpc).
  assert (Hsum : sum_list_with holds (goroutines s) = 0) by lia.
  destruct (done_owe_nothing (goroutines s) 0 (all_done _ Hsum)) as (H1 & _ & H2).
  auto.
Qed.

(** No livelock either: every state of a run can be driven to the
    return, in exactly as many steps as its measure. *)
Lemma completion (n : nat) (s : state) :
  invariant accountNumber world providers s ->
  measure accountNumber world s = n ->
  exists extension s',
    run accountNumber world extension (Live s) = Some (Live s')
    /\ pc s' = Returned /\ length extension = n.
Proof.
  revert s. induction n as [|n IH]; intros s Hinv Hn.
  - exists [], s. split; [reflexivity |]. split; [| reflexivity].
    destruct s as [[rest| |] gs wg closed results]; unfold measure in Hn;
      simpl in Hn; try lia. reflexivity.
  - assert (Hnot : pc s <> Returned).
    { intros Hpc.
      destruct (returned_nothing_owed s Hinv Hpc) as (_ & Hstage & Hclosed).
      unfold measure in Hn. rewrite Hpc, Hstage, Hclosed in Hn. simpl in Hn. lia. }
    destruct (progress s Hinv Hnot) as (a & s1 & Hexec).
    destruct (exec_preserves a s _ Hinv Hexec) as [Hinv1 Hmeasure].
    destruct (IH s1 Hinv1) as (extension & s' & Hrun & Hpc & Hlen); [lia |].
    exists (a :: extension), s'. cbn [run length]. rewrite Hexec.
    split; [exact Hrun |]. split; [exact Hpc | now rewrite Hlen].
Qed.

(** At the return every expected result has been collected, once. *)
Lemma returned_results (s : state) :
  invariant accountNumber world providers s ->
  pc s = Returned ->
  Permutation (results s) (expected_from accountNumber world 0 providers).
Proof.
  intros Hinv Hret.
  destruct (returned_nothing_owed s Hinv Hret) as (Howed & _ & _).
  destruct Hinv as (Hledger & _).
  rewrite Hret, Howed in Hledger. cbn [remaining_of expected_from app] in Hledger.
  now rewrite app_nil_r in Hledger.
Qed.

End Run.

(** The expected results are the outcomes that the calls send. *)
Lemma expected_from_delivered (accountNumber : string) (world : nat -> transport)
    (ps : list Provider) (i : nat) :
  expected_from accountNumber world i ps
  = concat (imap (fun j p =>
                    outcome_sent (checkProvider accountNumber p (world (i + j)))) ps).
Proof.
  revert i. induction ps as [|p ps IH]; intros i; [reflexivity |].
  cbn [expected_from imap concat]. unfold expected at 1.
  rewrite Nat.add_0_r. f_equal. rewrite IH. f_equal.
  apply imap_ext. intros j q _. simpl. do 3 f_equal. lia.
Qed.

Lemma delivered_expected (accountNumber : string) (providers : list Provider)
    (world : nat -> transport) :
  delivered accountNumber providers world
  = expected_from accountNumber world 0 providers.
Proof. symmetry. exact (expected_from_delivered accountNumber world providers 0). Qed.

Lemma returned_delivered (accountNumber : string) (world : nat -> transport)
    (providers : list Provider) (schedule : list action)
    (response : BankAccountValidationResponse) :
  checkProviders accountNumber providers world schedule = Returns response ->
  Permutation (Result response) (delivered accountNumber providers world).
Proof.
  unfold checkProviders.
  destruct (run accountNumber world schedule (Live (initial providers)))
    as [[s|]|] eqn:Hrun; try discriminate.
  destruct (pc s) eqn:Hpc; try discriminate.
  intros [= <-]. cbn [Result].
  destruct (run_preserves accountNumber world providers schedule _ _
              (initial_invariant accountNumber world providers) Hrun) as [Hinv _].
  rewrite (returned_results accountNumber world providers s Hinv Hpc).
  now rewrite delivered_expected.
Qed.

(** When no call meets the nil dereference, the expected results are what
    the providers' own calls send, one for each. *)
Lemma expected_from_sends (accountNumber : string) (world : nat -> transport)
    (ps : list Provider) (i : nat) :
  (forall j p, ps !! j = Some p ->
               checkProvider accountNumber p (world (i + j)) <> NilDereference) ->
  map Sends (expected_from accountNumber world i ps)
  = imap (fun j p => checkProvider accountNumber p (world (i + j))) ps.
Proof.
  revert i. induction ps as [|p ps IH]; intros i H; [reflexivity |].
  cbn [expected_from imap]. rewrite map_app. unfold expected at 1.
  pose proof (H 0 p eq_refl) as Hp. rewrite Nat.add_0_r in *.
  destruct (checkProvider accountNumber p (world i)) as [result|];
    [| now destruct Hp].
  cbn [outcome_sent map app]. f_equal. rewrite IH.
  - apply imap_ext. intros j q _. simpl. f_equal. f_equal. lia.
  - intros j q Hj. replace (S i + j) with (i + S j) by lia. now apply H.
Qed.

Lemma delivered_sends (accountNumber : string) (providers : list Provider)
    (world : nat -> transport) :
  answers accountNumber providers world ->
  map Sends (delivered accountNumber providers world)
  = imap (fun i p => checkProvider accountNumber p (world i)) providers.
Proof.
  intros Hanswers.
  assert (Hsends : map Sends (expected_from accountNumber world 0 providers)
                   = imap (fun i p => checkProvider accountNumber p (world i))
                       providers).
  { apply (expected_from_sends accountNumber world providers 0).
    intros j p Hj. now apply Hanswers. }
  now rewrite <- Hsends, delivered_expected.
Qed.

Lemma expected_from_elem (accountNumber : string) (world : nat -> transport)
    (ps : list Provider) (i : nat) (r : BankAccountValidationResult) :
  r ∈ expected_from accountNumber world i ps ->
  exists j p, ps !! j = Some p
              /\ checkProvider accountNumber p (world (i + j)) = Sends r.
Proof.
  revert i. induction ps as [|p ps IH]; intros i; cbn [expected_from].
  - intros Hr. now apply elem_of_nil in Hr.
  - intros Hr. apply elem_of_app in Hr as [Hr | Hr].
    + exists 0, p. split; [reflexivity |]. rewrite Nat.add_0_r.
      unfold expected in Hr.
      destruct (checkProvider accountNumber p (world i)) as [result|];
        cbn [outcome_sent] in Hr.
      * apply list_elem_of_singleton in Hr. now subst.
      * now apply elem_of_nil in Hr.
    + destruct (IH (S i) Hr) as (j & q & Hq & Hcall).
      exists (S j), q. split; [exact Hq |].
      now replace (i + S j) with (S i + j) by lia.
Qed.

(** Every outcome delivered is what the call of one of the providers
    sent. *)
Lemma delivered_elem (accountNumber : string) (providers : list Provider)
    (world : nat -> transport) (r : BankAccountValidationResult) :
  r ∈ delivered accountNumber providers world ->
  exists i p, providers !! i = Some p
              /\ checkProvider accountNumber p (world i) = Sends r.
Proof.
  rewrite delivered_expected.
  apply (expected_from_elem accountNumber world providers 0).
Qed.

(** When no call meets the nil dereference, every call takes its three
    steps: a run takes [4 N + 3] steps in all. *)
Lemma due_from_answers (accountNumber : string) (world : nat -> transport)
    (ps : list Provider) (i : nat) :
  (forall j p, ps !! j = Some p ->
               checkProvider accountNumber p (world (i + j)) <> NilDereference) ->
  due_from accountNumber world i ps = 4 * length ps.
Proof.
  revert i. induction ps as [|p ps IH]; intros i H; [reflexivity |].
  cbn [due_from length]. pose proof (H 0 p eq_refl) as Hp.
  rewrite Nat.add_0_r in Hp.
  destruct (checkProvider accountNumber p (world i)); [| now destruct Hp].
  cbn [cost]. rewrite IH; [lia |].
  intros j q Hj. replace (S i + j) with (i + S j) by lia. now apply H.
Qed.

Lemma measure_initial (accountNumber : string) (world : nat -> transport)
    (providers : list Provider) :
  answers accountNumber providers world ->
  measure accountNumber world (initial providers) = 4 * length providers + 3.
Proof.
  intros Hanswers. unfold measure, initial. cbn [pc goroutines closed length due].
  rewrite (due_from_answers accountNumber world providers 0); [lia |].
  intros j p Hj. now apply Hanswers.
Qed.


Lemma answers_refusing (accountNumber : string) (providers : list Provider) :
  answers accountNumber providers refusing.
Proof. intros i p _. unfold checkProvider, Marshal_entry, refusing. discriminate. Qed.

(** C1, as the code has it. Take any account number and any provider list
    of size [N] such that no reply sends a goroutine into the nil
    dereference. Then under every schedule [checkProviders] does not
    panic; every run can be continued to the return, which comes after
    [4 N + 3] steps in all; and the response returned holds exactly [N]
    outcomes, namely what the [N] calls sent, each once, in some order.
    Their provider names are the names of the list, with the same
    multiplicities: pairwise distinct exactly when the names of the list
    are. No outcome is dropped, however many calls fail or time out. *)
Theorem checkProviders_one_outcome_per_call
    (accountNumber : string) (providers : list Provider)
    (world : nat -> transport) :
  answers accountNumber providers world ->
  (forall schedule,
     checkProviders accountNumber providers world schedule <> Panics)
  /\ (forall schedule m,
        run accountNumber world schedule (Live (initial providers)) = Some m ->
        exists extension response,
          checkProviders accountNumber providers world (schedule ++ extension)
          = Returns response
          /\ length (schedule ++ extension) = 4 * length providers + 3)
  /\ (forall schedule response,
        checkProviders accountNumber providers world schedule = Returns response ->
        length (Result response) = length providers
        /\ Permutation (map Sends (Result response))
             (imap (fun i p => checkProvider accountNumber p (world i)) providers)
        /\ Permutation (map ResultProvider (Result response)) (map Name providers)
        /\ (NoDup (map Name providers) <->
            NoDup (map ResultProvider (Result response)))).
Proof.
  intros Hanswers.
  pose proof (initial_invariant accountNumber world providers) as Hinit.
  pose proof (measure_initial accountNumber world providers Hanswers) as Hmeasure.
  split; [| split].
  - intros schedule Hpanic. unfold checkProviders in Hpanic.
    destruct (run accountNumber world schedule (Live (initial providers)))
      as [m|] eqn:Hrun; [| discriminate].
    destruct (run_answers accountNumber world providers schedule _ m
                Hanswers Hinit Hrun) as (s & -> & _ & _).
    destruct (pc s); discriminate.
  - intros schedule m Hrun.
    destruct (run_answers accountNumber world providers schedule _ m
                Hanswers Hinit Hrun) as (s & -> & Hinv & Hlen).
    destruct (completion accountNumber world providers
                (measure accountNumber world s) s Hinv eq_refl)
      as (extension & s' & Hrun' & Hpc & Hlen').
    exists extension, {| Result := results s' |}. split.
    + unfold checkProviders. rewrite run_app, Hrun, Hrun', Hpc. reflexivity.
    + rewrite length_app. lia.
  - intros schedule response Hreturns.
    pose proof (returned_delivered _ _ _ _ _ Hreturns) as Hperm.
    pose proof (delivered_sends _ _ _ Hanswers) as Hsends.
    assert (Hall : Permutation (map Sends (Result response))
                     (imap (fun i p => checkProvider accountNumber p (world i))
                        providers)).
    { rewrite <- Hsends. now apply Permutation_map. }
    assert (Hnames : map ResultProvider (delivered accountNumber providers world)
                     = map Name providers).
    { apply list_eq. intros i. rewrite !list_lookup_fmap.
      pose proof (f_equal (fun l => l !! i) Hsends) as Hi. cbn beta in Hi.
      rewrite list_lookup_fmap, list_lookup_imap in Hi.
      destruct (delivered accountNumber providers world !! i) as [r|],
        (providers !! i) as [p|]; simpl in *; try discriminate; [| reflexivity].
      injection Hi as Hi. symmetry in Hi.
      now rewrite (Client.checkProvider_name _ _ _ _ Hi). }
    split; [| split; [| split]].
    + rewrite Hperm. rewrite <- (length_map Sends), Hsends. apply length_imap.
    + exact Hall.
    + rewrite Hperm. now rewrite Hnames.
    + rewrite Hperm. now rewrite Hnames.
Qed.

Lemma checkProviders_one_outcome_per_call_witness :
  answers "12345678" [provider1; provider2] refusing
  /\ forall schedule,
       checkProviders "12345678" [provider1; provider2] refusing schedule <> Panics.
Proof.
  pose proof (answers_refusing "12345678" [provider1; provider2]) as H.
  split; [exact H |].
  exact (proj1 (checkProviders_one_outcome_per_call
                  "12345678" [provider1; provider2] refusing H)).
Defined.

(** C1 as stated fails on distinctness: the filter [provider1, provider1]
    selects [provider1] twice, and the two outcomes carry the same
    provider name. *)
Lemma checkProviders_repeats_provider_name : ~ one_distinct_outcome_per_provider.
Proof.
  intros H.
  specialize (H "12345678"
                (providersToCall [provider1; provider2]
                   (Some ["provider1"; "provider1"]))
                refusing (in_order 2)
                {| Result := [ {| ResultProvider := "provider1"; IsValid := false |};
                               {| ResultProvider := "provider1"; IsValid := false |} ] |}).
  assert (Hrun : checkProviders "12345678"
                   (providersToCall [provider1; provider2]
                      (Some ["provider1"; "provider1"]))
                   refusing (in_order 2)
                 = Returns
                     {| Result := [ {| ResultProvider := "provider1"; IsValid := false |};
                                    {| ResultProvider := "provider1"; IsValid := false |} ] |})
    by (vm_compute; reflexivity).
  destruct (H Hrun) as (_ & Hnodup & _).
  cbn [Result map ResultProvider] in Hnodup.
  apply NoDup_cons in Hnodup as [Hnotin _]. apply Hnotin. left.
Qed.

End Aggregator.

(** ** The cases of [main_test.go], replayed on the embedding *)

Module Tests.
Import Bytes Main.

Example TestReadConfig_unset (yaml_Unmarshal : yaml_decoder) :
  readConfig yaml_Unmarshal empty
  = (None, Some (error_response "ENVVAR PROVIDERS is required")).
Proof. reflexivity. Qed.

Example TestReadConfig_blank (yaml_Unmarshal : yaml_decoder) :
  yaml_Unmarshal EmptyString = (None, None) ->
  readConfig yaml_Unmarshal {[ "PROVIDERS" := EmptyString ]}
  = (None, Some (error_response "ENVVAR PROVIDERS is invalid yaml")).
Proof.
  intros H. unfold readConfig. rewrite lookup_singleton_eq, H. reflexivity.
Qed.

Example Test_unmarshalRequest_valid :
  unmarshalRequest
    {| RequestBody := "{" +:+ quoted "accountNumber" +:+ ": "
                          +:+ quoted "12345678" +:+ "}" |}
  = Returns (Some {| AccountNumber := Some "12345678";
                     RequestProviders := None |}, None).
Proof. vm_compute. reflexivity. Qed.

Example Test_unmarshalRequest_validWithProvider :
  unmarshalRequest
    {| RequestBody := "{" +:+ quoted "accountNumber" +:+ ": "
                          +:+ quoted "12345678" +:+ ", "
                          +:+ quoted "providers" +:+ ": ["
                          +:+ quoted "provider1" +:+ ", "
                          +:+ quoted "provider2" +:+ "]}" |}
  = Returns (Some {| AccountNumber := Some "12345678";
                     RequestProviders := Some ["provider1"; "provider2"] |},
             None).
Proof. vm_compute. reflexivity. Qed.

Example Test_unmarshalRequest_missingAccount :
  unmarshalRequest
    {| RequestBody := "{" +:+ quoted "david" +:+ ": " +:+ quoted "12345678" +:+ "}" |}
  = Returns (None, Some (error_response "account number missing from payload")).
Proof. vm_compute. reflexivity. Qed.

Example Test_unmarshalRequest_invalidJson :
  unmarshalRequest
    {| RequestBody := "{" +:+ quoted "accountNumber: " +:+ quoted "12345678" +:+ "}" |}
  = Returns (None, Some (error_response "invalid json payload")).
Proof. vm_compute. reflexivity. Qed.

Example Test_handleError :
  handleError (Some (ErrorString "Error")) "error" = error_response "error"
  /\ handleError None "error" = error_response "error"
  /\ handleError (Some (ErrorString "Error")) EmptyString
     = error_response EmptyString.
Proof. repeat split; vm_compute; reflexivity. Qed.

Example Test_providersToCall :
  providersToCall [provider1; provider2] None = [provider1; provider2]
  /\ providersToCall [provider1; provider2] (Some ["provider1"]) = [provider1]
  /\ providersToCall [provider1; provider2] (Some ["provider3"]) = []
  /\ providersToCall [provider1; provider2] (Some ["provider1"; "provider3"])
     = [provider1]
  /\ providersToCall [provider1; provider2] (Some []) = [].
Proof. repeat split; vm_compute; reflexivity. Qed.

(** The expected value of the test lists [provider2] first: that is the
    outcome of the schedules in which the second goroutine's send is
    received first; the schedule [in_order 2] gives the other order. *)
Example Test_checkProviders :
  checkProviders "12345678" [provider1; provider2] refusing
    [Spawn; Spawn; Collect; Call 1; Receive 1; Call 0; Done 1; Receive 0;
     Done 0; Close; Return]
  = Returns {| Result := [ {| ResultProvider := "provider2"; IsValid := false |};
                           {| ResultProvider := "provider1"; IsValid := false |} ] |}
  /\ checkProviders "12345678" [provider1; provider2] refusing (in_order 2)
     = Returns {| Result := [ {| ResultProvider := "provider1"; IsValid := false |};
                              {| ResultProvider := "provider2"; IsValid := false |} ] |}.
Proof. split; vm_compute; reflexivity. Qed.

(** The two scenarios of the specification, through [Handler]. *)
Example Handler_one_valid_provider :
  Handler {| Providers := [provider1] |}
    {| RequestBody := "{" +:+ quoted "accountNumber" +:+ ": "
                          +:+ quoted "12345678" +:+ "}" |}
    (replying 200 valid_body) (in_order 1)
  = Returns
      ({| StatusCode := 200;
          IsBase64Encoded := false;
          Body := "{" +:+ quoted "result" +:+ ":[{" +:+ quoted "provider" +:+ ":"
                      +:+ quoted "provider1" +:+ "," +:+ quoted "isValid"
                      +:+ ":true}]}";
          Headers := {[ "Content-Type" := "application/json" ]} |}, None).
Proof. vm_compute. reflexivity. Qed.

Example Handler_empty_selection :
  Handler {| Providers := [provider1; provider2] |}
    {| RequestBody := "{" +:+ quoted "accountNumber" +:+ ": "
                          +:+ quoted "12345678" +:+ ", "
                          +:+ quoted "providers" +:+ ": []}" |}
    refusing (in_order 0)
  = Returns
      ({| StatusCode := 200;
          IsBase64Encoded := false;
          Body := "{" +:+ quoted "result" +:+ ":[]}";
          Headers := {[ "Content-Type" := "application/json" ]} |}, None).
Proof. vm_compute. reflexivity. Qed.

End Tests.

(** * Further properties of [main.go] *)

(** ** More on the provider registry filter *)

Module Selection.
Import Main.

Lemma omap_pointwise {A B : Type} (f g : A -> option B) (l : list A) :
  (forall x, x ∈ l -> f x = g x) -> omap f l = omap g l.
Proof.
  induction l as [|x l IH]; intros H; [reflexivity |].
  assert (IH' : omap f l = omap g l).
  { apply IH. intros y Hy. apply H. set_solver. }
  simpl. rewrite (H x) by set_solver.
  destruct (g x); [f_equal |]; exact IH'.
Qed.

(** Filtering by a concatenation of filters concatenates the
    selections. *)
Theorem providersToCall_app (providers : list Provider) (names1 names2 : list string) :
  providersToCall providers (Some (names1 ++ names2))
  = providersToCall providers (Some names1)
    ++ providersToCall providers (Some names2).
Proof. rewrite !Registry.providersToCall_omap. apply omap_app. Qed.

(** A present filter selects nothing exactly when none of its names is
    configured. *)
Theorem providersToCall_nil_iff (providers : list Provider) (names : list string) :
  providersToCall providers (Some names) = []
  <-> forall n, n ∈ names -> n ∉ map Name providers.
Proof.
  rewrite Registry.providersToCall_omap.
  induction names as [|n names IH]; simpl.
  - split; [intros _ n Hn; set_solver | reflexivity].
  - destruct (confMap providers !! n) as [p|] eqn:Hn.
    + split; [discriminate |]. intros H. exfalso.
      apply (H n); [set_solver |].
      apply Registry.confMap_lookup_Some in Hn as [Hin <-].
      now apply list_elem_of_fmap_2 with (f := Name) in Hin.
    + apply Registry.confMap_lookup_None in Hn. rewrite IH. split.
      * intros H m Hm. apply elem_of_cons in Hm as [-> | Hm]; [exact Hn | now apply H].
      * intros H m Hm. apply H. set_solver.
Qed.

(** The selection never has more entries than the filter. *)
Lemma providersToCall_length (providers : list Provider) (names : list string) :
  length (providersToCall providers (Some names)) <= length names.
Proof.
  rewrite Registry.providersToCall_omap.
  induction names as [|n names IH]; simpl; [lia |].
  unfold omap in IH. destruct (confMap providers !! n); simpl; lia.
Qed.

(** In the selection every name stands for one provider: the one the
    map of the configuration holds under it. *)
Lemma selection_lookup (providers : list Provider) (names : list string)
    (n : string) :
  n ∈ names ->
  confMap (providersToCall providers (Some names)) !! n = confMap providers !! n.
Proof.
  intros Hn. destruct (confMap providers !! n) as [p|] eqn:Hp.
  - destruct (confMap (providersToCall providers (Some names)) !! n) as [q|] eqn:Hq.
    + apply Registry.confMap_lookup_Some in Hq as [Hin Hname].
      rewrite Registry.providersToCall_omap, list_elem_of_omap in Hin.
      destruct Hin as (m & _ & Hm).
      pose proof (Registry.confMap_lookup_Some _ _ _ Hm) as [_ Hmq].
      congruence.
    + apply Registry.confMap_lookup_None in Hq. exfalso. apply Hq.
      pose proof (Registry.confMap_lookup_Some _ _ _ Hp) as [_ <-].
      apply list_elem_of_fmap_2.
      rewrite Registry.providersToCall_omap, list_elem_of_omap. eauto.
  - apply Registry.confMap_lookup_None. apply Registry.confMap_lookup_None in Hp.
    intros Hin. apply Hp. apply list_elem_of_fmap in Hin as (q & -> & Hq).
    apply Registry.providersToCall_elem in Hq as [Hq _].
    now apply list_elem_of_fmap_2.
Qed.

(** Filtering is idempotent: filtering a selection again by the same
    filter gives the selection back, also when names repeat in the
    configuration or in the filter. *)
Theorem providersToCall_idempotent (providers : list Provider) (names : list string) :
  providersToCall (providersToCall providers (Some names)) (Some names)
  = providersToCall providers (Some names).
Proof.
  rewrite (Registry.providersToCall_omap (providersToCall providers (Some names))).
  etransitivity; [| symmetry; apply Registry.providersToCall_omap].
  apply omap_pointwise. intros n Hn. now apply selection_lookup.
Qed.

(** When several configured providers share a name, a present filter
    selects the one configured last, and never an earlier one of that
    name: the map keeps the last entry. An absent filter returns them
    all. *)
Theorem providersToCall_last_configured_wins
    (before after : list Provider) (p : Provider) (names : list string) :
  Name p ∉ map Name after ->
  confMap (before ++ p :: after) !! Name p = Some p
  /\ providersToCall (before ++ p :: after) (Some [Name p]) = [p]
  /\ (forall q, q ∈ providersToCall (before ++ p :: after) (Some names) ->
                Name q = Name p -> q = p)
  /\ providersToCall (before ++ p :: after) None = before ++ p :: after.
Proof.
  intros Hafter.
  assert (Hlookup : confMap (before ++ p :: after) !! Name p = Some p).
  { induction after as [|x after IH] using rev_ind.
    - rewrite Registry.confMap_snoc. apply lookup_insert_eq.
    - rewrite map_app in Hafter. simpl in Hafter.
      replace (before ++ p :: after ++ [x]) with ((before ++ p :: after) ++ [x])
        by now rewrite <- app_assoc.
      rewrite Registry.confMap_snoc, lookup_insert_ne.
      + apply IH. set_solver.
      + intros Heq. apply Hafter. rewrite Heq. set_solver. }
  split; [exact Hlookup |]. split; [| split; [| reflexivity]].
  - unfold providersToCall. simpl. now rewrite Hlookup.
  - intros q Hq Hname.
    rewrite Registry.providersToCall_omap, list_elem_of_omap in Hq.
    destruct Hq as (m & _ & Hm).
    pose proof (Registry.confMap_lookup_Some _ _ _ Hm) as [_ Hmq].
    congruence.
Qed.

Lemma providersToCall_last_configured_wins_witness :
  (Name provider1_again ∉ map Name [provider2])
  /\ providersToCall ([provider1] ++ (provider1_again :: [provider2]))
       (Some [Name provider1_again])
     = [provider1_again].
Proof.
  assert (H : Name provider1_again ∉ map Name [provider2]).
  { apply (bool_decide_unpack _). vm_compute. exact I. }
  split; [exact H |].
  exact (proj1 (proj2 (providersToCall_last_configured_wins
                         [provider1] [provider2] provider1_again [] H))).
Defined.

End Selection.

(** ** Configuration loading *)

Module Startup.
Import Main.

(** [readConfig] returns a configuration or an error response, never
    both and never neither; it succeeds exactly when [PROVIDERS] is set
    and the YAML decoder yields a non-nil configuration without error.
    So [main] hands [Handler] to the Lambda runtime only with such a
    configuration, and [OnlyErrors] with the error response otherwise. *)
Theorem readConfig_config_or_error
    (yaml_Unmarshal : yaml_decoder) (environ : gmap string string) :
  (forall config,
     readConfig yaml_Unmarshal environ = (Some config, None)
     <-> exists providerYaml,
           environ !! "PROVIDERS" = Some providerYaml
           /\ yaml_Unmarshal providerYaml = (Some config, None))
  /\ (is_Some (fst (readConfig yaml_Unmarshal environ))
      <-> snd (readConfig yaml_Unmarshal environ) = None)
  /\ match main yaml_Unmarshal environ with
     | StartHandler config =>
         exists c, config = Some c
                   /\ readConfig yaml_Unmarshal environ = (Some c, None)
     | StartOnlyErrors err =>
         readConfig yaml_Unmarshal environ = (None, Some err)
     end.
Proof.
  split; [| split].
  - intros config. unfold readConfig.
    destruct (environ !! "PROVIDERS") as [providerYaml|].
    + split.
      * intros H. exists providerYaml. split; [reflexivity |].
        destruct (yaml_Unmarshal providerYaml) as [[c|] [e|]]; congruence.
      * intros (text & [= <-] & ->). reflexivity.
    + split; [discriminate | intros (? & ? & _); discriminate].
  - unfold readConfig.
    destruct (environ !! "PROVIDERS") as [providerYaml|];
      [destruct (yaml_Unmarshal providerYaml) as [[c|] [e|]] |];
      cbn [fst snd]; split; try discriminate; try reflexivity; eauto;
      intros [? ?]; discriminate.
  - unfold main, readConfig.
    destruct (environ !! "PROVIDERS") as [providerYaml|];
      [destruct (yaml_Unmarshal providerYaml) as [[c|] [e|]] |];
      try reflexivity. eauto.
Qed.

End Startup.

(** ** More on the provider client *)

Module Verdicts.
Import Bytes Main.

Lemma response_member_true (members : list (string * Json.value))
    (d : Json.decoding bool) :
  Json.target (fold_left response_member members d) = true ->
  Json.target d = true
  \/ exists key, (key, Json.Bool true) ∈ members
                 /\ Json.fold_equal "isValid" key = true.
Proof.
  revert d. induction members as [|[key v] members IH]; intros d; [now left |].
  cbn [fold_left]. intros H. destruct (IH _ H) as [Hd | (k & Hk & Hfold)].
  - unfold response_member in Hd.
    destruct (Json.fold_equal "isValid" key) eqn:Hkey; [| now left].
    destruct v as [|[|]| | | |]; cbn in Hd; try (now left).
    right. exists key. split; [set_solver | exact Hkey].
  - right. exists k. split; [set_solver | exact Hfold].
Qed.

Lemma response_member_absent (members : list (string * Json.value))
    (d : Json.decoding bool) :
  forallb (fun member => negb (Json.fold_equal "isValid" (fst member))) members
  = true ->
  fold_left response_member members d = d.
Proof.
  revert d. induction members as [|[key v] members IH]; intros d; [reflexivity |].
  cbn [forallb fold_left fst]. intros H.
  apply andb_true_iff in H as [Hkey Hrest]. apply negb_true_iff in Hkey.
  rewrite (IH _ Hrest). unfold response_member. now rewrite Hkey.
Qed.

(** [checkProvider] reports an account as valid only when the provider
    said so: the POST got a response, its body was read, and the body is
    a JSON object with an [isValid] member that is [true]. No failure of
    any kind yields [isValid: true]. *)
Theorem checkProvider_valid_only_if_told
    (accountNumber : string) (provider : Provider) (post : transport)
    (result : BankAccountValidationResult) :
  checkProvider accountNumber provider post = Sends result ->
  IsValid result = true ->
  exists status bodyBytes members key,
    post (outbound accountNumber provider) = PostResponse status (ReadAll bodyBytes)
    /\ Json.parse_text bodyBytes = Some (Json.Object members)
    /\ (key, Json.Bool true) ∈ members
    /\ Json.fold_equal "isValid" key = true.
Proof.
  unfold checkProvider, outbound, Marshal_entry. cbn [fst].
  destruct (post _) as [|status [bodyBytes|]];
    try (intros [= <-]; discriminate).
  unfold Unmarshal_provider_response.
  destruct (Json.parse_text bodyBytes) as [[| | | | |members]|] eqn:Hparse;
    try (intros [= <-]; discriminate); try discriminate.
  destruct (Json.saved _); [intros [= <-]; discriminate |].
  intros [= <-]. cbn [IsValid ProviderIsValid]. intros Htrue.
  apply response_member_true in Htrue as [Hd | (key & Hkey & Hfold)];
    [discriminate |].
  exists status, bodyBytes, members, key. auto.
Qed.

Lemma checkProvider_valid_only_if_told_witness :
  checkProvider "12345678" provider1 (replying 200 valid_body 0)
  = Sends {| ResultProvider := "provider1"; IsValid := true |}
  /\ exists status bodyBytes members key,
       replying 200 valid_body 0 (outbound "12345678" provider1)
       = PostResponse status (ReadAll bodyBytes)
       /\ Json.parse_text bodyBytes = Some (Json.Object members)
       /\ (key, Json.Bool true) ∈ members
       /\ Json.fold_equal "isValid" key = true.
Proof.
  assert (H : checkProvider "12345678" provider1 (replying 200 valid_body 0)
              = Sends {| ResultProvider := "provider1"; IsValid := true |})
    by (vm_compute; reflexivity).
  split; [exact H |].
  exact (checkProvider_valid_only_if_told "12345678" provider1
           (replying 200 valid_body 0) _ H eq_refl).
Defined.

(** A reply whose body is a JSON object without an [isValid] member
    counts as "not valid", whatever its status and its other members. *)
Theorem checkProvider_missing_verdict
    (accountNumber : string) (provider : Provider) (post : transport)
    (status : Z) (bodyBytes : string) (members : list (string * Json.value)) :
  post (outbound accountNumber provider) = PostResponse status (ReadAll bodyBytes) ->
  Json.parse_text bodyBytes = Some (Json.Object members) ->
  forallb (fun member => negb (Json.fold_equal "isValid" (fst member))) members
  = true ->
  checkProvider accountNumber provider post
  = Sends {| ResultProvider := Name provider; IsValid := false |}.
Proof.
  intros Hpost Hparse Habsent.
  unfold checkProvider, Marshal_entry.
  change (post {| post_url := URL provider;
                  post_content_type := "application/json";
                  post_body := _ |})
    with (post (outbound accountNumber provider)).
  rewrite Hpost. unfold Unmarshal_provider_response. rewrite Hparse.
  now rewrite (response_member_absent members _ Habsent).
Qed.

Lemma checkProvider_missing_verdict_witness :
  replying 200 "{}" 0 (outbound "12345678" provider1)
  = PostResponse 200 (ReadAll "{}")
  /\ Json.parse_text "{}" = Some (Json.Object [])
  /\ checkProvider "12345678" provider1 (replying 200 "{}" 0)
     = Sends {| ResultProvider := Name provider1; IsValid := false |}.
Proof.
  assert (Hparse : Json.parse_text "{}" = Some (Json.Object []))
    by (vm_compute; reflexivity).
  split; [reflexivity |]. split; [exact Hparse |].
  exact (checkProvider_missing_verdict "12345678" provider1
           (replying 200 "{}" 0) 200 "{}" [] eq_refl Hparse eq_refl).
Defined.

End Verdicts.

(** ** More on the aggregator *)

Module Runs.
Import Bytes Main.

(** The only panic of [checkProviders] is the nil dereference of one of
    its [checkProvider] goroutines: the WaitGroup counter never goes
    negative, nothing is sent on the closed channel, and the channel is
    never closed under a waiting sender. *)
Theorem checkProviders_panics_only_on_nil
    (accountNumber : string) (providers : list Provider)
    (world : nat -> transport) (schedule : list action) :
  checkProviders accountNumber providers world schedule = Panics ->
  exists i p, providers !! i = Some p
              /\ checkProvider accountNumber p (world i) = NilDereference.
Proof.
  unfold checkProviders.
  destruct (run accountNumber world schedule (Live (initial providers)))
    as [[s|]|] eqn:Hrun; try discriminate; [destruct (pc s); discriminate |].
  intros _.
  exact (Aggregator.run_preserves accountNumber world providers schedule _ _
           (Aggregator.initial_invariant accountNumber world providers) Hrun).
Qed.

Lemma checkProviders_panics_only_on_nil_witness :
  checkProviders "12345678" [provider1; provider2] (null_at 1)
    [Spawn; Call 0; Spawn; Call 1; Done 1; Abort 1] = Panics
  /\ exists i p, [provider1; provider2] !! i = Some p
                 /\ checkProvider "12345678" p (null_at 1 i) = NilDereference.
Proof.
  assert (H : checkProviders "12345678" [provider1; provider2] (null_at 1)
                [Spawn; Call 0; Spawn; Call 1; Done 1; Abort 1] = Panics)
    by (vm_compute; reflexivity).
  split; [exact H |].
  exact (checkProviders_panics_only_on_nil "12345678" [provider1; provider2]
           (null_at 1) [Spawn; Call 0; Spawn; Call 1; Done 1; Abort 1] H).
Defined.

(** A run that returns has collected every outcome that was sent, and has
    taken as many steps as the measure of the initial state. *)
Lemma returns_measure
    (accountNumber : string) (providers : list Provider)
    (world : nat -> transport) (schedule : list action)
    (response : BankAccountValidationResponse) :
  checkProviders accountNumber providers world schedule = Returns response ->
  Permutation (Result response) (delivered accountNumber providers world)
  /\ length schedule = measure accountNumber world (initial providers).
Proof.
  intros Hreturns.
  split; [exact (Aggregator.returned_delivered _ _ _ _ _ Hreturns) |].
  unfold checkProviders in Hreturns.
  destruct (run accountNumber world schedule (Live (initial providers)))
    as [[s|]|] eqn:Hrun; try discriminate.
  destruct (pc s) eqn:Hpc; try discriminate.
  destruct (Aggregator.run_preserves accountNumber world providers schedule _ _
              (Aggregator.initial_invariant accountNumber world providers) Hrun)
    as [Hinv Hlen].
  destruct (Aggregator.returned_nothing_owed accountNumber world providers s
              Hinv Hpc) as (_ & Hdue & Hclosed).
  unfold measure at 1 in Hlen. rewrite Hpc, Hdue, Hclosed in Hlen.
  simpl in Hlen. lia.
Qed.

(** *** Runs with a goroutine on the panic path *)

Lemma run_spawns (accountNumber : string) (world : nat -> transport)
    (ps : list Provider) :
  forall (gs : list goroutine) (n : Z) (results : list BankAccountValidationResult),
    run accountNumber world (repeat Spawn (length ps))
      (Live (State (Spawning ps) gs n false results))
    = Some (Live (State (Spawning []) (gs ++ map Dispatched ps)
                    (n + Z.of_nat (length ps))%Z false results)).
Proof.
  induction ps as [|p ps IH]; intros gs n results.
  - cbn [length repeat run map]. now rewrite app_nil_r, Z.add_0_r.
  - cbn [length repeat run exec pc goroutines wg closed Main.results map].
    rewrite IH. rewrite <- app_assoc. cbn [app].
    now replace (n + 1 + Z.of_nat (length ps))%Z
      with (n + Z.of_nat (S (length ps)))%Z by lia.
Qed.

Lemma delivered_length (accountNumber : string) (world : nat -> transport)
    (ps : list Provider) :
  forall i,
    length (expected_from accountNumber world i ps) <= length ps
    /\ forall j p, ps !! j = Some p ->
         checkProvider accountNumber p (world (i + j)) = NilDereference ->
         length (expected_from accountNumber world i ps) < length ps.
Proof.
  induction ps as [|p ps IH]; intros i.
  - split; [reflexivity |]. intros j p Hj. now rewrite lookup_nil in Hj.
  - destruct (IH (S i)) as [Hle Hlt]. cbn [expected_from length].
    rewrite length_app. unfold expected.
    split.
    + destruct (checkProvider accountNumber p (world i)); cbn [outcome_sent length]; lia.
    + intros [|j] q Hj Hnil.
      * injection Hj as <-. rewrite Nat.add_0_r in Hnil. rewrite Hnil.
        cbn [outcome_sent length]. lia.
      * replace (i + S j) with (S i + j) in Hnil by lia.
        specialize (Hlt j q Hj Hnil).
        destruct (checkProvider accountNumber p (world i));
          cbn [outcome_sent length]; lia.
Qed.

(** What a provider that replies [null] does to a request. When the call
    of one provider meets the nil dereference, the scheduler decides: some
    runs end the process, others return to the caller before the process
    ends, because the panicking goroutine first runs its deferred
    [wg.Done()] and so lets the closer close the channel. A run that
    returns has the outcomes that were sent, in some order, but none for
    that provider: fewer outcomes than providers. *)
Theorem checkProviders_after_nil_dereference
    (accountNumber : string) (providers : list Provider)
    (world : nat -> transport) (i : nat) (p : Provider) :
  providers !! i = Some p ->
  checkProvider accountNumber p (world i) = NilDereference ->
  checkProviders accountNumber providers world
    (repeat Spawn (length providers) ++ [Call i; Done i; Abort i]) = Panics
  /\ (exists schedule response,
        checkProviders accountNumber providers world schedule = Returns response)
  /\ (forall schedule response,
        checkProviders accountNumber providers world schedule = Returns response ->
        Permutation (Result response) (delivered accountNumber providers world)
        /\ length (Result response) < length providers).
Proof.
  intros Hp Hnil. split; [| split].
  - unfold checkProviders, initial.
    rewrite Aggregator.run_app, run_spawns. cbn [app].
    assert (Hi : map Dispatched providers !! i = Some (Dispatched p))
      by now rewrite list_lookup_fmap, Hp.
    pose proof (lookup_lt_Some _ _ _ Hi) as Hlt.
    cbn [run]. unfold exec at 1. cbn [pc goroutines wg closed results].
    rewrite Hi, Hnil. cbv beta iota.
    cbn [run]. unfold exec at 1. cbn [pc goroutines wg closed results].
    rewrite list_lookup_insert_eq by exact Hlt. cbv beta iota.
    cbn [run]. unfold exec at 1. cbn [pc goroutines wg closed results].
    rewrite list_lookup_insert_eq by (rewrite length_insert; exact Hlt).
    reflexivity.
  - destruct (Aggregator.completion accountNumber world providers
                (measure accountNumber world (initial providers)) (initial providers)
                (Aggregator.initial_invariant accountNumber world providers)
                eq_refl)
      as (schedule & s & Hrun & Hpc & _).
    exists schedule, {| Result := results s |}.
    unfold checkProviders. now rewrite Hrun, Hpc.
  - intros schedule response Hreturns.
    pose proof (Aggregator.returned_delivered _ _ _ _ _ Hreturns) as Hperm.
    split; [exact Hperm |]. rewrite Hperm, Aggregator.delivered_expected.
    exact (proj2 (delivered_length accountNumber world providers 0) i p Hp Hnil).
Qed.

Lemma checkProviders_after_nil_dereference_witness :
  [provider1; provider2] !! 1 = Some provider2
  /\ checkProvider "12345678" provider2 (null_at 1 1) = NilDereference
  /\ checkProviders "12345678" [provider1; provider2] (null_at 1)
       [Spawn; Spawn; Call 1; Done 1; Abort 1] = Panics
  /\ checkProviders "12345678" [provider1; provider2] (null_at 1)
       [Spawn; Spawn; Collect; Call 1; Done 1; Call 0; Receive 0; Done 0;
        Close; Return]
     = Returns {| Result := [ {| ResultProvider := "provider1"; IsValid := false |} ] |}
  /\ length [ {| ResultProvider := "provider1"; IsValid := false |} ]
     < length [provider1; provider2].
Proof.
  assert (Hp : [provider1; provider2] !! 1 = Some provider2) by reflexivity.
  assert (Hnil : checkProvider "12345678" provider2 (null_at 1 1) = NilDereference)
    by (vm_compute; reflexivity).
  assert (Hreturns :
            checkProviders "12345678" [provider1; provider2] (null_at 1)
              [Spawn; Spawn; Collect; Call 1; Done 1; Call 0; Receive 0; Done 0;
               Close; Return]
            = Returns {| Result := [ {| ResultProvider := "provider1";
                                        IsValid := false |} ] |})
    by (vm_compute; reflexivity).
  pose proof (checkProviders_after_nil_dereference "12345678"
                [provider1; provider2] (null_at 1) 1 provider2 Hp Hnil)
    as (Hpanics & _ & Hfewer).
  split; [exact Hp |]. split; [exact Hnil |]. split; [exact Hpanics |].
  split; [exact Hreturns |].
  exact (proj2 (Hfewer _ _ Hreturns)).
Defined.

(** Whatever the remote side answers, a run of [checkProviders] that has
    not ended the process can be continued to the return, and every run
    that returns has collected exactly the outcomes that the calls sent,
    each once, in some order. *)
Theorem checkProviders_returns_what_was_sent
    (accountNumber : string) (providers : list Provider)
    (world : nat -> transport) :
  (forall schedule s,
     run accountNumber world schedule (Live (initial providers)) = Some (Live s) ->
     exists extension response,
       checkProviders accountNumber providers world (schedule ++ extension)
       = Returns response)
  /\ (forall schedule response,
        checkProviders accountNumber providers world schedule = Returns response ->
        Permutation (Result response) (delivered accountNumber providers world)).
Proof.
  split.
  - intros schedule s Hrun.
    destruct (Aggregator.run_preserves accountNumber world providers schedule _ _
                (Aggregator.initial_invariant accountNumber world providers) Hrun)
      as [Hinv _].
    destruct (Aggregator.completion accountNumber world providers
                (measure accountNumber world s) s Hinv eq_refl)
      as (extension & s' & Hrun' & Hpc & _).
    exists extension, {| Result := results s' |}.
    unfold checkProviders. now rewrite Aggregator.run_app, Hrun, Hrun', Hpc.
  - intros schedule response. apply Aggregator.returned_delivered.
Qed.

Lemma checkProviders_returns_what_was_sent_witness :
  run "12345678" (null_at 1) [Spawn; Spawn; Collect; Call 1; Done 1]
    (Live (initial [provider1; provider2]))
  = Some (Live (State Ranging [Dispatched provider1; Unrecovered] 1 false []))
  /\ exists extension response,
       checkProviders "12345678" [provider1; provider2] (null_at 1)
         ([Spawn; Spawn; Collect; Call 1; Done 1] ++ extension)
       = Returns response.
Proof.
  assert (H : run "12345678" (null_at 1) [Spawn; Spawn; Collect; Call 1; Done 1]
                (Live (initial [provider1; provider2]))
              = Some (Live (State Ranging [Dispatched provider1; Unrecovered] 1
                              false [])))
    by (vm_compute; reflexivity).
  split; [exact H |].
  exact (proj1 (checkProviders_returns_what_was_sent "12345678"
                  [provider1; provider2] (null_at 1)) _ _ H).
Defined.

(** The outcomes do not depend on the schedule: two runs of
    [checkProviders] that return, return the same outcomes, in possibly
    different orders, after the same number of steps. *)
Theorem checkProviders_schedule_independent
    (accountNumber : string) (providers : list Provider)
    (world : nat -> transport) (schedule1 schedule2 : list action)
    (response1 response2 : BankAccountValidationResponse) :
  checkProviders accountNumber providers world schedule1 = Returns response1 ->
  checkProviders accountNumber providers world schedule2 = Returns response2 ->
  Permutation (Result response1) (Result response2)
  /\ length schedule1 = length schedule2.
Proof.
  intros H1 H2.
  destruct (returns_measure _ _ _ _ _ H1) as [Hp1 Hl1].
  destruct (returns_measure _ _ _ _ _ H2) as [Hp2 Hl2].
  split; [now rewrite Hp1, Hp2 | lia].
Qed.

Lemma checkProviders_schedule_independent_witness :
  checkProviders "12345678" [provider1; provider2] refusing (in_order 2)
  = Returns {| Result := [ {| ResultProvider := "provider1"; IsValid := false |};
                           {| ResultProvider := "provider2"; IsValid := false |} ] |}
  /\ checkProviders "12345678" [provider1; provider2] refusing
       [Spawn; Spawn; Collect; Call 1; Receive 1; Call 0; Done 1; Receive 0;
        Done 0; Close; Return]
     = Returns {| Result := [ {| ResultProvider := "provider2"; IsValid := false |};
                              {| ResultProvider := "provider1"; IsValid := false |} ] |}
  /\ Permutation
       [ {| ResultProvider := "provider1"; IsValid := false |};
         {| ResultProvider := "provider2"; IsValid := false |} ]
       [ {| ResultProvider := "provider2"; IsValid := false |};
         {| ResultProvider := "provider1"; IsValid := false |} ].
Proof.
  assert (H1 : checkProviders "12345678" [provider1; provider2] refusing (in_order 2)
               = Returns {| Result := [ {| ResultProvider := "provider1"; IsValid := false |};
                                        {| ResultProvider := "provider2"; IsValid := false |} ] |})
    by (vm_compute; reflexivity).
  assert (H2 : checkProviders "12345678" [provider1; provider2] refusing
                 [Spawn; Spawn; Collect; Call 1; Receive 1; Call 0; Done 1; Receive 0;
                  Done 0; Close; Return]
               = Returns {| Result := [ {| ResultProvider := "provider2"; IsValid := false |};
                                        {| ResultProvider := "provider1"; IsValid := false |} ] |})
    by (vm_compute; reflexivity).
  split; [exact H1 |]. split; [exact H2 |].
  exact (proj1 (checkProviders_schedule_independent _ _ _ _ _ _ _ H1 H2)).
Defined.

(** *** The schedule [in_order] *)

Lemma at_middle (a b : list goroutine) (g g' : goroutine) (k : nat) :
  length a = k ->
  (a ++ g :: b) !! k = Some g /\ <[k := g']> (a ++ g :: b) = a ++ g' :: b.
Proof.
  intros <-. split; [now apply list_lookup_middle |].
  rewrite insert_app_r_alt by lia. now rewrite Nat.sub_diag.
Qed.

Lemma wake_finished (n : nat) :
  map wake (replicate n Finished) = replicate n Finished.
Proof. induction n as [|n IH]; [reflexivity |]. cbn [replicate map wake]. now rewrite IH. Qed.

Lemma run_calls (accountNumber : string) (world : nat -> transport)
    (ps : list Provider) :
  forall (k : nat) (results : list BankAccountValidationResult),
    (forall j p, ps !! j = Some p ->
       checkProvider accountNumber p (world (k + j)) <> NilDereference) ->
    run accountNumber world
      (flat_map (fun i => [Call i; Receive i; Done i]) (seq k (length ps)))
      (Live (State Ranging (replicate k Finished ++ map Dispatched ps)
               (Z.of_nat (length ps)) false results))
    = Some (Live (State Ranging (replicate (k + length ps) Finished) 0 false
                    (results ++ expected_from accountNumber world k ps))).
Proof.
  induction ps as [|p ps IH]; intros k results Hnil.
  - cbn [length seq flat_map run map expected_from].
    now rewrite !app_nil_r, Nat.add_0_r.
  - cbn [length seq flat_map app map expected_from].
    assert (Hk : length (replicate k Finished) = k) by apply length_replicate.
    pose proof (Hnil 0 p eq_refl) as Hp. rewrite Nat.add_0_r in Hp.
    unfold expected at 1.
    destruct (checkProvider accountNumber p (world k)) as [result|] eqn:Hcall;
      [| now destruct Hp].
    cbn [outcome_sent].
    destruct (at_middle (replicate k Finished) (map Dispatched ps)
                (Dispatched p) (Blocked result) k Hk)
      as [Hl1 Hi1].
    destruct (at_middle (replicate k Finished) (map Dispatched ps)
                (Blocked result) Unwinding k Hk)
      as [Hl2 Hi2].
    destruct (at_middle (replicate k Finished) (map Dispatched ps)
                Unwinding Finished k Hk)
      as [Hl3 Hi3].
    (* Call k *)
    cbn [run]. unfold exec at 1. cbn [pc goroutines wg closed Main.results].
    rewrite Hl1. cbv beta iota. rewrite Hcall. cbv beta iota. rewrite Hi1.
    (* Receive k *)
    cbn [run]. unfold exec at 1. cbn [pc goroutines wg closed Main.results].
    rewrite Hl2. cbv beta iota. rewrite Hi2.
    (* Done k *)
    cbn [run]. unfold exec at 1. cbn [pc goroutines wg closed Main.results].
    rewrite Hl3. cbv beta iota.
    replace (0 <? Z.of_nat (S (length ps)))%Z with true
      by (symmetry; apply Z.ltb_lt; lia).
    rewrite Hi3.
    replace (Z.of_nat (S (length ps)) - 1)%Z with (Z.of_nat (length ps)) by lia.
    replace (replicate k Finished ++ Finished :: map Dispatched ps)
      with (replicate (S k) Finished ++ map Dispatched ps)
      by (rewrite replicate_S_end, <- app_assoc; reflexivity).
    rewrite IH.
    + rewrite <- app_assoc. cbn [app]. now rewrite Nat.add_succ_r.
    + intros j q Hj. replace (S k + j) with (k + S j) by lia. now apply Hnil.
Qed.

Lemma checkProviders_in_order_run
    (accountNumber : string) (providers : list Provider)
    (world : nat -> transport) :
  answers accountNumber providers world ->
  checkProviders accountNumber providers world (in_order (length providers))
  = Returns {| Result := delivered accountNumber providers world |}.
Proof.
  intros Hanswers.
  unfold checkProviders, in_order, initial.
  rewrite Aggregator.run_app, run_spawns.
  cbn [app run exec pc goroutines wg closed Main.results]. rewrite Z.add_0_l.
  rewrite Aggregator.run_app.
  change (map Dispatched providers)
    with (replicate 0 Finished ++ map Dispatched providers).
  rewrite (run_calls accountNumber world providers 0 []).
  - cbn [run exec pc wg closed goroutines Main.results app plus Z.eqb andb negb].
    now rewrite Aggregator.delivered_expected.
  - intros j p Hj. now apply Hanswers.
Qed.

(** Run one after the other in the order of the list, the goroutines
    deliver their outcomes in that order: [in_order] is a complete
    schedule, and its response lists the outcome of provider [i] at
    position [i]. *)
Theorem checkProviders_in_order
    (accountNumber : string) (providers : list Provider)
    (world : nat -> transport) :
  answers accountNumber providers world ->
  exists results,
    checkProviders accountNumber providers world (in_order (length providers))
    = Returns {| Result := results |}
    /\ map Sends results
       = imap (fun i p => checkProvider accountNumber p (world i)) providers.
Proof.
  intros Hanswers.
  exists (delivered accountNumber providers world).
  split; [now apply checkProviders_in_order_run |].
  now apply Aggregator.delivered_sends.
Qed.

Lemma checkProviders_in_order_witness :
  answers "12345678" [provider1; provider2] refusing
  /\ exists results,
       checkProviders "12345678" [provider1; provider2] refusing
         (in_order (length [provider1; provider2]))
       = Returns {| Result := results |}
       /\ map Sends results
          = imap (fun i p => checkProvider "12345678" p (refusing i))
              [provider1; provider2].
Proof.
  pose proof (Aggregator.answers_refusing "12345678" [provider1; provider2]) as H.
  split; [exact H |].
  exact (checkProviders_in_order "12345678" [provider1; provider2] refusing H).
Defined.

(** With no provider selected there is one run: the loop is skipped, the
    closer closes the channel at once and the range ends. It returns the
    empty result, starts no [checkProvider] goroutine and cannot panic,
    whatever the remote side is. *)
Theorem checkProviders_no_providers
    (accountNumber : string) (world : nat -> transport) (schedule : list action) :
  checkProviders accountNumber [] world schedule <> Panics
  /\ forall response,
       checkProviders accountNumber [] world schedule = Returns response
       <-> schedule = [Collect; Close; Return] /\ response = {| Result := [] |}.
Proof.
  split.
  - unfold checkProviders.
    destruct (run accountNumber world schedule (Live (initial [])))
      as [[s|]|] eqn:Hrun; try discriminate; [destruct (pc s); discriminate |].
    destruct (Aggregator.run_preserves accountNumber world [] schedule _ _
                (Aggregator.initial_invariant accountNumber world []) Hrun)
      as (i & p & Hp & _).
    now rewrite lookup_nil in Hp.
  - intros response. split; [| now intros [-> ->]].
    unfold checkProviders, initial.
    destruct schedule as [|a1 schedule]; [discriminate |].
    destruct a1; cbn [run exec pc goroutines wg closed results];
      rewrite ?lookup_nil; try discriminate.
    destruct schedule as [|a2 schedule]; [discriminate |].
    destruct a2;
      cbn [run exec pc goroutines wg closed results map Z.eqb andb negb];
      rewrite ?lookup_nil; try discriminate.
    destruct schedule as [|a3 schedule]; [discriminate |].
    destruct a3;
      cbn [run exec pc goroutines wg closed results map Z.eqb andb negb];
      rewrite ?lookup_nil; try discriminate.
    destruct schedule as [|a4 schedule]; [now intros [= <-] |].
    destruct a4;
      cbn [run exec pc goroutines wg closed results map Z.eqb andb negb];
      rewrite ?lookup_nil; discriminate.
Qed.

(** *** Collected outcomes stay *)

Lemma exec_results_grow (accountNumber : string) (world : nat -> transport)
    (a : action) (s s' : state) :
  exec accountNumber world a s = Some (Live s') ->
  results s `prefix_of` results s'.
Proof.
  destruct s as [pc gs wg closed rs]. destruct a as [| |i|i|i|i| |];
    cbn [exec Main.pc Main.goroutines Main.wg Main.closed Main.results].
  - destruct pc as [[|p rest]| |]; try discriminate. now intros [= <-].
  - destruct pc as [[|p rest]| |]; try discriminate. now intros [= <-].
  - destruct (gs !! i) as [[p| | | | |]|]; try discriminate. now intros [= <-].
  - destruct pc; try discriminate.
    destruct (gs !! i) as [[p|r| | | |]|]; try discriminate.
    destruct closed; [discriminate |]. intros [= <-]. cbn [Main.results].
    now apply prefix_app_r.
  - destruct (gs !! i) as [[p|r| | | |]|]; try discriminate; now intros [= <-].
  - destruct (gs !! i) as [[p|r| | | |]|]; discriminate.
  - destruct pc; try discriminate;
      (destruct ((wg =? 0)%Z && negb closed); [| discriminate]);
      now intros [= <-].
  - destruct pc; try discriminate. destruct closed; [| discriminate].
    now intros [= <-].
Qed.

(** An outcome, once received from the channel, is never dropped,
    changed or moved: along every run the collected results only grow
    at their end, so what a run has collected at any point is a prefix of
    what it returns. *)
Theorem collected_results_stay
    (accountNumber : string) (providers : list Provider)
    (world : nat -> transport) (schedule extension : list action)
    (s : state) (response : BankAccountValidationResponse) :
  run accountNumber world schedule (Live (initial providers)) = Some (Live s) ->
  checkProviders accountNumber providers world (schedule ++ extension)
  = Returns response ->
  results s `prefix_of` Result response.
Proof.
  intros Hrun Hreturns. unfold checkProviders in Hreturns.
  rewrite Aggregator.run_app, Hrun in Hreturns.
  destruct (run accountNumber world extension (Live s)) as [[s'|]|] eqn:Hext;
    try discriminate.
  destruct (pc s'); try discriminate. injection Hreturns as <-. cbn [Result].
  clear Hrun. revert s Hext.
  induction extension as [|a extension IH]; intros s; cbn [run].
  - now intros [= <-].
  - destruct (exec accountNumber world a s) as [[s1|]|] eqn:Hexec; try discriminate.
    + intros Hext. etransitivity; [exact (exec_results_grow _ _ _ _ _ Hexec) |].
      now apply IH.
    + destruct extension; discriminate.
Qed.

Lemma collected_results_stay_witness :
  run "12345678" refusing [Spawn; Spawn; Collect; Call 1; Receive 1]
    (Live (initial [provider1; provider2]))
  = Some (Live (State Ranging
                  [Dispatched provider1; Unwinding] 2 false
                  [ {| ResultProvider := "provider2"; IsValid := false |} ]))
  /\ [ {| ResultProvider := "provider2"; IsValid := false |} ]
     `prefix_of`
     [ {| ResultProvider := "provider2"; IsValid := false |};
       {| ResultProvider := "provider1"; IsValid := false |} ].
Proof.
  assert (H1 : run "12345678" refusing [Spawn; Spawn; Collect; Call 1; Receive 1]
                 (Live (initial [provider1; provider2]))
               = Some (Live (State Ranging
                               [Dispatched provider1; Unwinding] 2 false
                               [ {| ResultProvider := "provider2"; IsValid := false |} ])))
    by (vm_compute; reflexivity).
  assert (H2 : checkProviders "12345678" [provider1; provider2] refusing
                 ([Spawn; Spawn; Collect; Call 1; Receive 1]
                  ++ [Call 0; Done 1; Receive 0; Done 0; Close; Return])
               = Returns {| Result := [ {| ResultProvider := "provider2"; IsValid := false |};
                                        {| ResultProvider := "provider1"; IsValid := false |} ] |})
    by (vm_compute; reflexivity).
  split; [exact H1 |].
  exact (collected_results_stay _ _ _ _ _ _ _ H1 H2).
Defined.

(** *** Every order of the outcomes is possible *)

Lemma run_call_all (accountNumber : string) (world : nat -> transport)
    (ps : list Provider) :
  forall (sent : list BankAccountValidationResult) (k : nat) (at_pc : main_pc)
         (n : Z) (rs : list BankAccountValidationResult),
    length sent = k ->
    (forall j p, ps !! j = Some p ->
       checkProvider accountNumber p (world (k + j)) <> NilDereference) ->
    run accountNumber world (map Call (seq k (length ps)))
      (Live (State at_pc (map Blocked sent ++ map Dispatched ps) n false rs))
    = Some (Live (State at_pc
                    (map Blocked sent
                     ++ map Blocked (expected_from accountNumber world k ps))
                    n false rs)).
Proof.
  induction ps as [|p ps IH]; intros sent k at_pc n rs Hk Hnil; [reflexivity |].
  cbn [length seq map expected_from].
  pose proof (Hnil 0 p eq_refl) as Hp. rewrite Nat.add_0_r in Hp.
  unfold expected at 1.
  destruct (checkProvider accountNumber p (world k)) as [result|] eqn:Hcall;
    [| now destruct Hp].
  cbn [outcome_sent app].
  assert (Hlen : length (map Blocked sent) = k) by now rewrite length_map.
  destruct (at_middle (map Blocked sent) (map Dispatched ps) (Dispatched p)
              (Blocked result) k Hlen) as [Hl Hi].
  cbn [run]. unfold exec at 1. cbn [pc goroutines wg closed results].
  rewrite Hl. cbv beta iota. rewrite Hcall. cbv beta iota. rewrite Hi.
  replace (map Blocked sent ++ Blocked result :: map Dispatched ps)
    with (map Blocked (sent ++ [result]) ++ map Dispatched ps)
    by (rewrite map_app, <- app_assoc; reflexivity).
  rewrite IH.
  - rewrite map_app, <- app_assoc. reflexivity.
  - rewrite length_app. simpl. lia.
  - intros j q Hj. replace (S k + j) with (k + S j) by lia. now apply Hnil.
Qed.

Lemma run_receive_all (accountNumber : string) (world : nat -> transport)
    (r : nat -> BankAccountValidationResult) (n : Z) (order : list nat) :
  forall (gs : list goroutine) (rs : list BankAccountValidationResult),
    NoDup order ->
    (forall i, i ∈ order -> gs !! i = Some (Blocked (r i))) ->
    exists gs',
      run accountNumber world (map Receive order)
        (Live (State Ranging gs n false rs))
      = Some (Live (State Ranging gs' n false (rs ++ map r order)))
      /\ length gs' = length gs
      /\ (forall j, j ∈ order -> gs' !! j = Some Unwinding)
      /\ (forall j, j ∉ order -> gs' !! j = gs !! j).
Proof.
  induction order as [|i order IH]; intros gs rs Hnodup Hblocked.
  - exists gs. cbn [map run]. rewrite app_nil_r.
    repeat split. intros j Hj. now apply elem_of_nil in Hj.
  - apply NoDup_cons in Hnodup as [Hi Hnodup].
    pose proof (Hblocked i ltac:(left)) as Hgi.
    destruct (IH (<[i := Unwinding]> gs) (rs ++ [r i]) Hnodup) as
      (gs' & Hrun & Hlen & Hin & Hout).
    { intros j Hj. rewrite list_lookup_insert_ne by congruence.
      apply Hblocked. now right. }
    exists gs'. cbn [map run]. unfold exec at 1.
    cbn [pc goroutines wg closed results]. rewrite Hgi. cbv beta iota.
    rewrite Hrun, <- app_assoc. cbn [app].
    split; [reflexivity |]. split; [now rewrite Hlen, length_insert |].
    split.
    + intros j Hj. apply elem_of_cons in Hj as [-> | Hj]; [| now apply Hin].
      rewrite (Hout i Hi). apply list_lookup_insert_eq.
      now apply lookup_lt_Some in Hgi.
    + intros j Hj. apply not_elem_of_cons in Hj as [Hne Hj].
      rewrite Hout by exact Hj.
      apply list_lookup_insert_ne. congruence.
Qed.

Lemma run_done_all (accountNumber : string) (world : nat -> transport) (n : nat) :
  forall (k : nat) (rs : list BankAccountValidationResult),
    run accountNumber world (map Done (seq k n))
      (Live (State Ranging (replicate k Finished ++ replicate n Unwinding)
               (Z.of_nat n) false rs))
    = Some (Live (State Ranging (replicate (k + n) Finished) 0 false rs)).
Proof.
  induction n as [|n IH]; intros k rs.
  - cbn [seq map run replicate]. now rewrite app_nil_r, Nat.add_0_r.
  - cbn [seq map replicate].
    assert (Hk : length (replicate k Finished) = k) by apply length_replicate.
    destruct (at_middle (replicate k Finished) (replicate n Unwinding)
                Unwinding Finished k Hk) as [Hl Hi].
    cbn [run]. unfold exec at 1. cbn [pc goroutines wg closed results].
    rewrite Hl. cbv beta iota.
    replace (0 <? Z.of_nat (S n))%Z with true by (symmetry; apply Z.ltb_lt; lia).
    rewrite Hi.
    replace (Z.of_nat (S n) - 1)%Z with (Z.of_nat n) by lia.
    replace (replicate k Finished ++ Finished :: replicate n Unwinding)
      with (replicate (S k) Finished ++ replicate n Unwinding)
      by (rewrite replicate_S_end, <- app_assoc; reflexivity).
    rewrite IH. now rewrite Nat.add_succ_r.
Qed.

(** The order of the outcomes is up to the scheduler, and nothing else
    restricts it: when no call meets the nil dereference, for every
    arrangement of the outcomes of the provider calls there is a run of
    [checkProviders] that returns exactly that arrangement. *)
Theorem checkProviders_any_order
    (accountNumber : string) (providers : list Provider)
    (world : nat -> transport) (arranged : list BankAccountValidationResult) :
  answers accountNumber providers world ->
  Permutation (map Sends arranged)
    (imap (fun i p => checkProvider accountNumber p (world i)) providers) ->
  exists schedule,
    checkProviders accountNumber providers world schedule
    = Returns {| Result := arranged |}.
Proof.
  intros Hanswers Hperm.
  set (E := expected_from accountNumber world 0 providers).
  set (N := length providers).
  assert (Hsends : map Sends E
                   = imap (fun i p => checkProvider accountNumber p (world i))
                       providers).
  { apply (Aggregator.expected_from_sends accountNumber world providers 0).
    intros j p Hj. now apply Hanswers. }
  assert (HE : length E = N).
  { rewrite <- (length_map Sends), Hsends. apply length_imap. }
  rewrite <- Hsends in Hperm.
  apply Permutation_inj in Hperm as (Hlen & f & Hinj & Hf).
  rewrite !length_map in Hlen.
  assert (Hlookup : forall i, arranged !! i = E !! f i).
  { intros i. specialize (Hf i). rewrite !list_lookup_fmap in Hf.
    destruct (arranged !! i), (E !! f i); simpl in Hf; congruence. }
  set (r := fun i => default {| ResultProvider := EmptyString; IsValid := false |}
                       (E !! i)).
  set (order := map f (seq 0 N)).
  assert (Hbound : forall i, i < N -> f i < N).
  { intros i Hi. rewrite <- HE. apply lookup_lt_is_Some. rewrite <- Hlookup.
    apply lookup_lt_is_Some. lia. }
  assert (Horder : NoDup order).
  { unfold order. apply NoDup_fmap_2; [exact Hinj | apply NoDup_seq]. }
  assert (Hall : forall j, j ∈ order <-> j < N).
  { assert (Hp : Permutation order (seq 0 N)).
    { apply submseteq_length_Permutation.
      - apply NoDup_submseteq; [exact Horder |].
        intros x Hx. unfold order in Hx.
        apply list_elem_of_fmap in Hx as (i & -> & Hi).
        apply elem_of_seq in Hi. apply elem_of_seq.
        split; [lia |]. simpl. apply Hbound. lia.
      - unfold order. now rewrite length_map. }
    intros j. rewrite Hp, elem_of_seq. lia. }
  assert (Harranged : arranged = map r order).
  { apply list_eq. intros i. unfold order.
    rewrite !list_lookup_fmap. destruct (decide (i < N)) as [Hi | Hi].
    - rewrite lookup_seq_lt by exact Hi. simpl. rewrite Hlookup. unfold r.
      destruct (lookup_lt_is_Some_2 E (f i)) as [e He];
        [rewrite HE; now apply Hbound |].
      now rewrite He.
    - rewrite lookup_seq_ge by lia. simpl. apply lookup_ge_None. lia. }
  exists (receiving order N).
  unfold checkProviders, receiving, initial.
  rewrite Aggregator.run_app. fold N. unfold N at 1. rewrite run_spawns.
  cbn [app run exec pc goroutines wg closed results]. rewrite Z.add_0_l.
  rewrite Aggregator.run_app.
  change (map Dispatched providers)
    with (map Blocked [] ++ map Dispatched providers).
  unfold N at 1.
  rewrite (run_call_all accountNumber world providers [] 0 Ranging _ []);
    [| reflexivity | intros j p Hj; now apply Hanswers].
  cbn [map app]. fold E.
  destruct (run_receive_all accountNumber world r (Z.of_nat (length providers))
              order (map Blocked E) [] Horder) as (gs' & Hrun & Hlen' & Hin & Hout).
  { intros i Hi. apply Hall in Hi. rewrite list_lookup_fmap. unfold r.
    destruct (lookup_lt_is_Some_2 E i) as [e He]; [lia |]. now rewrite He. }
  rewrite Aggregator.run_app, Hrun. cbn [app].
  assert (Hgs : gs' = replicate 0 Finished ++ replicate N Unwinding).
  { apply list_eq. intros j. cbn [replicate app].
    destruct (decide (j < N)) as [Hj | Hj].
    - rewrite (Hin j) by now apply Hall. symmetry. now apply lookup_replicate_2.
    - rewrite (Hout j) by (intros Hj'; apply Hall in Hj'; lia).
      rewrite (proj2 (lookup_ge_None _ _)) by (rewrite length_map; lia).
      symmetry. apply lookup_replicate_None. lia. }
  rewrite Hgs, Aggregator.run_app. fold N.
  rewrite run_done_all.
  cbn [run exec pc wg closed goroutines results plus Z.eqb andb negb].
  now rewrite Harranged.
Qed.

Lemma checkProviders_any_order_witness :
  answers "12345678" [provider1; provider2] refusing
  /\ Permutation
       (map Sends [ {| ResultProvider := "provider2"; IsValid := false |};
                    {| ResultProvider := "provider1"; IsValid := false |} ])
       (imap (fun i p => checkProvider "12345678" p (refusing i))
          [provider1; provider2])
  /\ exists schedule,
       checkProviders "12345678" [provider1; provider2] refusing schedule
       = Returns {| Result := [ {| ResultProvider := "provider2"; IsValid := false |};
                                {| ResultProvider := "provider1"; IsValid := false |} ] |}.
Proof.
  pose proof (Aggregator.answers_refusing "12345678" [provider1; provider2]) as Ha.
  assert (Hp : Permutation
                 (map Sends [ {| ResultProvider := "provider2"; IsValid := false |};
                              {| ResultProvider := "provider1"; IsValid := false |} ])
                 (imap (fun i p => checkProvider "12345678" p (refusing i))
                    [provider1; provider2])).
  { apply Permutation_swap. }
  split; [exact Ha |]. split; [exact Hp |].
  exact (checkProviders_any_order "12345678" [provider1; provider2] refusing _ Ha Hp).
Defined.

End Runs.

(** ** The handler as a whole *)

Module Service.
Import Bytes Main.

(** [unmarshalRequest] panics on exactly one kind of body: a JSON text
    that is [null] (also between white space). Every other body gets a
    request or an error response. *)
Theorem unmarshalRequest_panics_iff_null (request : Request) :
  unmarshalRequest request = Panics
  <-> Json.parse_text (RequestBody request) = Some Json.Null.
Proof.
  unfold unmarshalRequest, Unmarshal_request.
  destruct (Json.parse_text (RequestBody request)) as [[| | | | |members]|];
    try (split; [reflexivity || discriminate | reflexivity || discriminate]).
  destruct (Json.saved _); [split; discriminate |].
  cbn [AccountNumber]. destruct (fst _); split; discriminate.
Qed.

(** [unmarshalRequest] is never [Pending]: it runs no goroutine. *)
Lemma unmarshalRequest_not_pending (request : Request) :
  unmarshalRequest request <> Pending.
Proof.
  unfold unmarshalRequest.
  destruct (Unmarshal_request _) as [[r|] [e|]]; try discriminate.
  destruct (AccountNumber r); discriminate.
Qed.

(** What [Handler] does, by the result of [unmarshalRequest]. *)
Lemma Handler_cases (config : Config) (request : Request)
    (world : nat -> transport) (schedule : list action) :
  (unmarshalRequest request = Panics
   /\ Handler config request world schedule = Panics)
  \/ (exists errorResponse,
        unmarshalRequest request = Returns (None, Some errorResponse)
        /\ Handler config request world schedule = Returns (errorResponse, None))
  \/ (exists accountNumber filter,
        unmarshalRequest request
        = Returns (Some {| AccountNumber := Some accountNumber;
                           RequestProviders := filter |}, None)
        /\ Handler config request world schedule
           = reply (checkProviders accountNumber
                      (providersToCall (Providers config) filter) world schedule)).
Proof.
  destruct (unmarshalRequest request) as [[vr [er|]]| |] eqn:Hu.
  - right. left. exists er.
    destruct (Requests.unmarshalRequest_error_shape _ _ _ Hu) as [-> _].
    split; [reflexivity |]. now apply Requests.Handler_error with (validationRequest := None).
  - right. right. destruct vr as [[account filter]|].
    + destruct (Requests.unmarshalRequest_request_shape _ _ _ Hu) as [_ [a Ha]].
      cbn [AccountNumber] in Ha. subst account.
      exists a, filter. split; [reflexivity |].
      now apply Requests.Handler_accepted.
    + exfalso. revert Hu. unfold unmarshalRequest.
      destruct (Unmarshal_request _) as [[r|] [e|]]; try discriminate.
      destruct (AccountNumber r); discriminate.
  - left. split; [reflexivity |]. unfold Handler. now rewrite Hu.
  - now destruct (unmarshalRequest_not_pending request).
Qed.

(** [Handler] panics for two reasons only: the request body is the JSON
    text [null], or the request was accepted and the call of one of the
    selected providers meets the nil dereference. The dereferences of
    [Handler] itself are safe. *)
Theorem Handler_panics_only_on_nil (config : Config) (request : Request)
    (world : nat -> transport) (schedule : list action) :
  Handler config request world schedule = Panics ->
  Json.parse_text (RequestBody request) = Some Json.Null
  \/ exists accountNumber filter i p,
       unmarshalRequest request
       = Returns (Some {| AccountNumber := Some accountNumber;
                          RequestProviders := filter |}, None)
       /\ providersToCall (Providers config) filter !! i = Some p
       /\ checkProvider accountNumber p (world i) = NilDereference.
Proof.
  intros Hpanic.
  destruct (Handler_cases config request world schedule)
    as [[Hu _] | [(er & _ & Hh) | (a & filter & Hu & Hh)]].
  - left. now apply unmarshalRequest_panics_iff_null.
  - rewrite Hh in Hpanic. discriminate.
  - right. rewrite Hh in Hpanic.
    destruct (checkProviders a _ world schedule) as [response| |] eqn:Hc;
      try discriminate.
    unfold checkProviders in Hc.
    destruct (run a world schedule (Live (initial _))) as [[s|]|] eqn:Hrun;
      try discriminate; [destruct (pc s); discriminate |].
    destruct (Aggregator.run_preserves a world _ schedule _ _
                (Aggregator.initial_invariant a world _) Hrun)
      as (i & p & Hp & Hnil).
    exists a, filter, i, p. auto.
Qed.

Lemma Handler_panics_only_on_nil_witness :
  Handler {| Providers := [provider1; provider2] |}
    {| RequestBody := "null" |} refusing [] = Panics
  /\ (Json.parse_text "null" = Some Json.Null
      \/ exists accountNumber filter i p,
           unmarshalRequest {| RequestBody := "null" |}
           = Returns (Some {| AccountNumber := Some accountNumber;
                              RequestProviders := filter |}, None)
           /\ providersToCall [provider1; provider2] filter !! i = Some p
           /\ checkProvider accountNumber p (refusing i) = NilDereference).
Proof.
  assert (H : Handler {| Providers := [provider1; provider2] |}
                {| RequestBody := "null" |} refusing [] = Panics)
    by (vm_compute; reflexivity).
  split; [exact H |].
  exact (Handler_panics_only_on_nil {| Providers := [provider1; provider2] |}
           {| RequestBody := "null" |} refusing [] H).
Defined.

(** An accepted request is served with the outcomes that were sent.
    Whenever [Handler] returns for it, it returns no Go error and a
    response with status 200 and content type [application/json] whose
    body is the encoding of the outcomes that the calls of the selected
    providers sent, each once, in some order. If no selected provider's
    call meets the nil dereference, these are one outcome per selected
    provider, [Handler] cannot panic, and the sequential schedule makes
    it return them in the order of the selection. *)
Theorem Handler_serves_outcomes_sent
    (config : Config) (request : Request) (world : nat -> transport)
    (accountNumber : string) (filter : option (list string)) :
  unmarshalRequest request
  = Returns (Some {| AccountNumber := Some accountNumber;
                     RequestProviders := filter |}, None) ->
  let selected := providersToCall (Providers config) filter in
  (forall schedule response err,
     Handler config request world schedule = Returns (response, err) ->
     err = None
     /\ StatusCode response = 200%Z
     /\ IsBase64Encoded response = false
     /\ Headers response = {[ "Content-Type" := "application/json" ]}
     /\ exists results,
          Body response
          = Json.HTMLEscape (fst (Marshal_response {| Result := results |}))
          /\ Permutation results (delivered accountNumber selected world))
  /\ (answers accountNumber selected world ->
      map Sends (delivered accountNumber selected world)
      = imap (fun i p => checkProvider accountNumber p (world i)) selected
      /\ (forall schedule, Handler config request world schedule <> Panics)
      /\ Handler config request world (in_order (length selected))
         = reply (Returns {| Result := delivered accountNumber selected world |})).
Proof.
  intros Hu selected.
  assert (Hh : forall schedule,
             Handler config request world schedule
             = reply (checkProviders accountNumber selected world schedule)).
  { intros schedule. now apply Requests.Handler_accepted. }
  split.
  - intros schedule response err. rewrite Hh.
    destruct (checkProviders accountNumber selected world schedule)
      as [r| |] eqn:Hc; try discriminate.
    cbn [reply]. intros [= <- <-].
    pose proof (Aggregator.returned_delivered _ _ _ _ _ Hc) as Hperm.
    repeat split. exists (Result r). destruct r as [results]. cbn [Result] in *.
    split; [reflexivity | exact Hperm].
  - intros Hanswers. split; [now apply Aggregator.delivered_sends |]. split.
    + intros schedule. rewrite Hh.
      destruct (checkProviders accountNumber selected world schedule)
        as [r| |] eqn:Hc; try discriminate.
      exfalso. unfold checkProviders in Hc.
      destruct (run accountNumber world schedule (Live (initial selected)))
        as [[s|]|] eqn:Hrun; try discriminate; [destruct (pc s); discriminate |].
      destruct (Aggregator.run_answers accountNumber world selected schedule _ _
                  Hanswers
                  (Aggregator.initial_invariant accountNumber world selected) Hrun)
        as (s' & [=] & _).
    + rewrite Hh.
      now rewrite (Runs.checkProviders_in_order_run accountNumber selected world
                     Hanswers).
Qed.

Lemma Handler_serves_outcomes_sent_witness :
  unmarshalRequest {| RequestBody := empty_account_body |}
  = Returns (Some {| AccountNumber := Some EmptyString;
                     RequestProviders := None |}, None)
  /\ answers EmptyString
       (providersToCall (Providers {| Providers := [provider1; provider2] |}) None)
       refusing
  /\ Handler {| Providers := [provider1; provider2] |}
       {| RequestBody := empty_account_body |} refusing
       (in_order (length (providersToCall
                            (Providers {| Providers := [provider1; provider2] |})
                            None)))
     = reply (Returns {| Result :=
                           delivered EmptyString
                             (providersToCall
                                (Providers {| Providers := [provider1; provider2] |})
                                None)
                             refusing |}).
Proof.
  assert (Hu : unmarshalRequest {| RequestBody := empty_account_body |}
               = Returns (Some {| AccountNumber := Some EmptyString;
                                  RequestProviders := None |}, None))
    by (vm_compute; reflexivity).
  pose proof (Aggregator.answers_refusing EmptyString
                (providersToCall (Providers {| Providers := [provider1; provider2] |})
                   None)) as Ha.
  split; [exact Hu |]. split; [exact Ha |].
  exact (proj2 (proj2 (proj2 (Handler_serves_outcomes_sent
                                {| Providers := [provider1; provider2] |}
                                {| RequestBody := empty_account_body |} refusing
                                EmptyString None Hu) Ha))).
Defined.



End Service.

(** ** What the bodies look like *)

Module Encoding.
Import Bytes Main.

Lemma html_free_app (a b : string) :
  html_free (a +:+ b) = html_free a && html_free b.
Proof.
  induction a as [|c a IH]; simpl; [reflexivity |].
  now rewrite IH, andb_assoc.
Qed.

Lemma u00_html_free (c : ascii) :
  ((code c =? 60) || (code c =? 62) || (code c =? 38))%N = true ->
  html_free (Json.u00 c) = true.
Proof.
  intros H. apply orb_true_iff in H as [H | H];
    [apply orb_true_iff in H as [H | H] |];
    apply N.eqb_eq in H; unfold Json.u00; rewrite H; vm_compute; reflexivity.
Qed.

Lemma escape_2028_html_free (c : ascii) :
  ((code c =? 168) || (code c =? 169))%N = true ->
  html_free (Json.escape_2028 c) = true.
Proof.
  intros H. apply orb_true_iff in H as [H | H];
    apply N.eqb_eq in H; unfold Json.escape_2028; rewrite H; vm_compute; reflexivity.
Qed.

(** [HTMLEscape] leaves none of the bytes it is there to remove. *)
Lemma HTMLEscape_html_free (n : nat) :
  forall s : string, String.length s <= n -> html_free (Json.HTMLEscape s) = true.
Proof.
  induction n as [|n IH]; intros s Hn.
  - destruct s; [reflexivity | simpl in Hn; lia].
  - destruct s as [|c rest]; [reflexivity |]. simpl in Hn.
    cbn [Json.HTMLEscape].
    destruct ((code c =? 60) || (code c =? 62) || (code c =? 38))%N eqn:Hc.
    + rewrite html_free_app, (u00_html_free c Hc). apply IH. lia.
    + assert (Hplain : html_free (String c (Json.HTMLEscape rest)) = true).
      { cbn [html_free]. rewrite Hc. apply IH. lia. }
      destruct rest as [|c1 [|c2 rest2]]; try exact Hplain.
      destruct ((code c =? 226)%N && (code c1 =? 128)%N
                && ((code c2 =? 168)%N || (code c2 =? 169)%N)) eqn:Hsep;
        [| exact Hplain].
      apply andb_true_iff in Hsep as [_ Hc2].
      rewrite html_free_app, (escape_2028_html_free c2 Hc2).
      apply IH. simpl in *. lia.
Qed.

(** No body this program sends contains the bytes [<], [>] or [&],
    whatever the message, the provider names or the outcomes are: not the
    body of an error response, and not the body of any response [Handler]
    returns. *)
Theorem bodies_are_html_free :
  (forall err message, html_free (Body (handleError err message)) = true)
  /\ (forall config request world schedule response err,
        Handler config request world schedule = Returns (response, err) ->
        html_free (Body response) = true).
Proof.
  assert (Herror : forall err message,
             html_free (Body (handleError err message)) = true).
  { intros err message. unfold handleError, Marshal_entry. cbn [Body].
    now apply (HTMLEscape_html_free _ _ (le_n _)). }
  split; [exact Herror |].
  intros config request world schedule response err Hh.
  destruct (Service.Handler_cases config request world schedule)
    as [[_ Hp] | [(er & Hu & Hr) | (a & filter & _ & Hr)]];
    rewrite Hh in *; try discriminate.
  - injection Hr as Hresponse _. subst response.
    destruct (Requests.unmarshalRequest_error_shape _ _ _ Hu)
      as (_ & message & _ & ->).
    apply Herror.
  - destruct (checkProviders a _ world schedule) as [r| |]; try discriminate.
    assert (Hbody : Body response = Json.HTMLEscape (fst (Marshal_response r)))
      by exact (f_equal (fun o => match o with
                                  | Returns (x, _) => Body x
                                  | _ => EmptyString
                                  end) Hr).
    rewrite Hbody. now apply (HTMLEscape_html_free _ _ (le_n _)).
Qed.

Lemma bodies_are_html_free_witness :
  Handler {| Providers := [provider1] |}
    {| RequestBody := "<" |} refusing [] 
  = Returns (handleError None "invalid json payload", None)
  /\ html_free (Body (handleError None "invalid json payload")) = true.
Proof.
  assert (H : Handler {| Providers := [provider1] |}
                {| RequestBody := "<" |} refusing []
              = Returns (handleError None "invalid json payload", None))
    by (vm_compute; reflexivity).
  split; [exact H |].
  exact (proj2 bodies_are_html_free _ _ _ _ _ _ H).
Defined.

(** *** Plain texts survive encoding and decoding *)

Lemma append_cons (c : ascii) (a b : string) :
  String c a +:+ b = String c (a +:+ b).
Proof. reflexivity. Qed.

Lemma append_nil_l (s : string) : EmptyString +:+ s = s.
Proof. reflexivity. Qed.

Lemma append_assoc (a b c : string) : (a +:+ b) +:+ c = a +:+ (b +:+ c).
Proof.
  induction a as [|x a IH]; [reflexivity |].
  now rewrite !append_cons, IH.
Qed.

Lemma quoted_append (s rest : string) :
  quoted s +:+ rest = String dq (s +:+ String dq rest).
Proof.
  unfold quoted. now rewrite append_cons, append_assoc, append_cons, append_nil_l.
Qed.

Lemma string_body_plain (s rest : string) :
  plain s = true ->
  Json.string_body 0 (s +:+ String dq rest) = Json.Scanned s rest.
Proof.
  induction s as [|c s IH].
  - intros _. rewrite append_nil_l. cbn [Json.string_body].
    now rewrite N.eqb_refl.
  - cbn [plain]. intros H. apply andb_true_iff in H as [Hc Hs].
    rewrite append_cons. cbn [Json.string_body]. rewrite (IH Hs).
    unfold plain_byte, between in Hc.
    apply andb_true_iff in Hc as [Hrange Hne].
    apply andb_true_iff in Hrange as [Hge Hle].
    apply negb_true_iff in Hne.
    apply orb_false_iff in Hne as [Hne _].
    apply orb_false_iff in Hne as [Hne _].
    apply orb_false_iff in Hne as [Hne _].
    apply orb_false_iff in Hne as [H34 H92].
    apply N.leb_le in Hge, Hle.
    change (code dq) with 34%N. change (code backslash) with 92%N.
    rewrite H34, H92.
    replace (code c <? 32)%N with false by (symmetry; apply N.ltb_ge; lia).
    replace (code c <? 128)%N with true by (symmetry; apply N.ltb_lt; lia).
    reflexivity.
Qed.

(** The text [{"key":"val"}], as [Marshal_entry] writes it for plain
    strings, and what the parser makes of it. *)
Lemma Marshal_entry_plain (key val : string) :
  plain key = true -> plain val = true ->
  fst (Marshal_entry key val)
  = String "{" (String dq (key +:+ String dq (String ":"
      (String dq (val +:+ String dq (String "}" EmptyString)))))).
Proof.
  intros Hkey Hval. unfold Marshal_entry, Json.encode_string. cbn [fst].
  rewrite (Requests.escape_body_plain _ Hkey), (Requests.escape_body_plain _ Hval).
  now rewrite append_cons, append_nil_l, quoted_append, append_cons,
    append_nil_l, quoted_append.
Qed.

Lemma skip_space_nonspace (c : ascii) (rest : string) :
  Json.is_space c = false -> Json.skip_space (String c rest) = String c rest.
Proof. intros H. cbn [Json.skip_space]. now rewrite H. Qed.

Lemma parse_plain_string (fuel : nat) (depth : N) (s rest : string) :
  plain s = true ->
  Json.parse (S fuel) depth Json.AValue (String dq (s +:+ String dq rest))
  = Json.Scanned (Json.Str s) rest.
Proof.
  intros Hs. cbn [Json.parse].
  rewrite skip_space_nonspace by reflexivity.
  change (code dq =? 123)%N with false. change (code dq =? 91)%N with false.
  change (code dq =? code dq)%N with true. cbv beta iota.
  now rewrite (string_body_plain s rest Hs).
Qed.

Lemma parse_plain_member (fuel : nat) (depth : N) (key val : string) :
  plain key = true -> plain val = true ->
  Json.parse (S (S fuel)) depth Json.Members
    (String dq (key +:+ String dq (String ":"
       (String dq (val +:+ String dq (String "}" EmptyString))))))
  = Json.Scanned (Json.Object [(key, Json.Str val)]) EmptyString.
Proof.
  intros Hkey Hval. set (inner := S fuel). cbn [Json.parse].
  rewrite skip_space_nonspace by reflexivity.
  change (code dq =? code dq)%N with true. cbv beta iota.
  rewrite (string_body_plain key _ Hkey). cbn [Json.and_then].
  rewrite skip_space_nonspace by reflexivity.
  change (code ":" =? 58)%N with true. cbv beta iota.
  subst inner.
  rewrite (parse_plain_string fuel depth val _ Hval). cbn [Json.and_then].
  rewrite skip_space_nonspace by reflexivity.
  reflexivity.
Qed.

Lemma parse_entry_plain (key val : string) :
  plain key = true -> plain val = true ->
  Json.parse_text (fst (Marshal_entry key val))
  = Some (Json.Object [(key, Json.Str val)]).
Proof.
  intros Hkey Hval. rewrite (Marshal_entry_plain key val Hkey Hval).
  unfold Json.parse_text.
  match goal with
  | |- context [Json.parse ?fuel _ _ _] =>
      replace fuel with (S (S (S (fuel - 3)))) by (cbn [String.length]; lia);
      set (inner := S (S (fuel - 3)))
  end.
  cbn [Json.parse].
  rewrite skip_space_nonspace by reflexivity.
  change (code "{" =? 123)%N with true.
  change (Json.maxNestingDepth <=? 0)%N with false. cbv beta iota.
  rewrite skip_space_nonspace by reflexivity.
  change (code dq =? 125)%N with false. cbv beta iota.
  subst inner.
  now rewrite (parse_plain_member _ _ key val Hkey Hval).
Qed.

(** An account number of plain bytes (printable ASCII other than the
    quote, the backslash and the three HTML characters) goes out to the
    provider as the JSON object with the one member [accountNumber]
    holding it, byte for byte: [checkProvider] posts exactly that body to
    the provider's URL, since whatever the remote side is, a verdict in
    its reply to that one request is the outcome of the call. And the
    body is itself a request [unmarshalRequest] accepts, with the same
    account number: what [checkProvider] encodes, [unmarshalRequest]
    decodes. *)
Theorem accountNumber_round_trip (accountNumber : string) (provider : Provider) :
  plain accountNumber = true ->
  let body := "{" +:+ quoted "accountNumber" +:+ ":" +:+ quoted accountNumber +:+ "}" in
  (forall (post : transport) (status : Z) (b : bool),
     post {| post_url := URL provider;
             post_content_type := "application/json";
             post_body := body |}
     = PostResponse status (ReadAll (verdict_body b)) ->
     checkProvider accountNumber provider post
     = Sends {| ResultProvider := Name provider; IsValid := b |})
  /\ Json.parse_text body
     = Some (Json.Object [("accountNumber", Json.Str accountNumber)])
  /\ unmarshalRequest {| RequestBody := body |}
     = Returns (Some {| AccountNumber := Some accountNumber;
                        RequestProviders := None |}, None).
Proof.
  intros Hplain body.
  assert (Hbody : fst (Marshal_entry "accountNumber" accountNumber) = body).
  { unfold Marshal_entry, Json.encode_string. cbn [fst].
    rewrite (Requests.escape_body_plain _ Hplain).
    now replace (Json.escape_body 0 "accountNumber") with "accountNumber"
      by (vm_compute; reflexivity). }
  assert (Hparse : Json.parse_text body
                   = Some (Json.Object [("accountNumber", Json.Str accountNumber)])).
  { rewrite <- Hbody. now apply parse_entry_plain. }
  split; [| split].
  - intros post status b. rewrite <- Hbody. apply Client.checkProvider_verdict.
  - exact Hparse.
  - unfold unmarshalRequest, Unmarshal_request. cbn [RequestBody].
    rewrite Hparse. reflexivity.
Qed.

Lemma accountNumber_round_trip_witness :
  plain "12345678" = true
  /\ checkProvider "12345678" provider1
       (accepting_only
          ("{" +:+ quoted "accountNumber" +:+ ":" +:+ quoted "12345678" +:+ "}"))
     = Sends {| ResultProvider := Name provider1; IsValid := true |}
  /\ unmarshalRequest
       {| RequestBody :=
            "{" +:+ quoted "accountNumber" +:+ ":" +:+ quoted "12345678" +:+ "}" |}
     = Returns (Some {| AccountNumber := Some "12345678";
                        RequestProviders := None |}, None).
Proof.
  pose proof (accountNumber_round_trip "12345678" provider1 eq_refl)
    as (Hcall & _ & Hrequest).
  split; [reflexivity |]. split; [| exact Hrequest].
  apply (Hcall _ 200%Z true). vm_compute. reflexivity.
Defined.

(** The body of an error response is a JSON text: for a message of plain
    bytes it parses to the object with the one member [error] holding the
    message. *)
Theorem handleError_body_parses (err : option go_error) (message : string) :
  plain message = true ->
  Json.parse_text (Body (handleError err message))
  = Some (Json.Object [("error", Json.Str message)]).
Proof.
  intros Hplain. unfold handleError.
  destruct (Marshal_entry "error" message) as [body e] eqn:Hentry. cbn [Body].
  assert (Hbody : body = fst (Marshal_entry "error" message)) by now rewrite Hentry.
  rewrite Hbody, Requests.HTMLEscape_safe.
  - now apply parse_entry_plain.
  - rewrite (Marshal_entry_plain "error" message eq_refl Hplain).
    repeat (progress cbn [html_safe] || rewrite Requests.html_safe_app).
    rewrite (Requests.plain_html_safe message Hplain).
    reflexivity.
Qed.

Lemma handleError_body_parses_witness :
  plain "invalid json payload" = true
  /\ Json.parse_text (Body (handleError None "invalid json payload"))
     = Some (Json.Object [("error", Json.Str "invalid json payload")]).
Proof.
  split; [reflexivity |].
  exact (handleError_body_parses None "invalid json payload" eq_refl).
Defined.

End Encoding.

(** ** Reading the success response back *)

Module Decoding.
Import Bytes Main.

Lemma parse_true (fuel : nat) (depth : N) (rest : string) :
  Json.parse (S fuel) depth Json.AValue
    (String "t" (String "r" (String "u" (String "e" rest))))
  = Json.Scanned (Json.Bool true) rest.
Proof.
  cbn [Json.parse]. rewrite Encoding.skip_space_nonspace by reflexivity.
  reflexivity.
Qed.

Lemma parse_false (fuel : nat) (depth : N) (rest : string) :
  Json.parse (S fuel) depth Json.AValue
    (String "f" (String "a" (String "l" (String "s" (String "e" rest)))))
  = Json.Scanned (Json.Bool false) rest.
Proof.
  cbn [Json.parse]. rewrite Encoding.skip_space_nonspace by reflexivity.
  reflexivity.
Qed.

Lemma parse_bool (fuel : nat) (depth : N) (b : bool) (rest : string) :
  Json.parse (S fuel) depth Json.AValue (Json.encode_bool b +:+ rest)
  = Json.Scanned (Json.Bool b) rest.
Proof. destruct b; [apply parse_true | apply parse_false]. Qed.

(** One outcome as [Marshal_result] writes it, with what follows it. *)
Lemma Marshal_result_plain (r : BankAccountValidationResult) (rest : string) :
  plain (ResultProvider r) = true ->
  Marshal_result r +:+ rest
  = String "{" (String dq ("provider" +:+ String dq (String ":"
      (String dq (ResultProvider r +:+ String dq (String ","
         (String dq ("isValid" +:+ String dq (String ":"
            (Json.encode_bool (IsValid r) +:+ String "}" rest)))))))))).
Proof.
  intros Hname. unfold Marshal_result, Json.encode_string.
  rewrite (Requests.escape_body_plain _ Hname).
  replace (Json.escape_body 0 "provider") with "provider" by (vm_compute; reflexivity).
  replace (Json.escape_body 0 "isValid") with "isValid" by (vm_compute; reflexivity).
  rewrite !Encoding.append_assoc, !Encoding.quoted_append.
  reflexivity.
Qed.

Lemma parse_result (fuel : nat) (depth : N)
    (r : BankAccountValidationResult) (rest : string) :
  plain (ResultProvider r) = true ->
  (Json.maxNestingDepth <=? depth)%N = false ->
  Json.parse (S (S (S (S fuel)))) depth Json.AValue (Marshal_result r +:+ rest)
  = Json.Scanned (result_value r) rest.
Proof.
  intros Hname Hdepth. rewrite (Marshal_result_plain r rest Hname).
  set (f3 := S (S (S fuel))). cbn [Json.parse].
  rewrite Encoding.skip_space_nonspace by reflexivity.
  change (code "{" =? 123)%N with true. cbv beta iota. rewrite Hdepth.
  rewrite Encoding.skip_space_nonspace by reflexivity.
  change (code dq =? 125)%N with false. cbv beta iota.
  subst f3. set (f2 := S (S fuel)). cbn [Json.parse].
  rewrite Encoding.skip_space_nonspace by reflexivity.
  change (code dq =? code dq)%N with true. cbv beta iota.
  rewrite (Encoding.string_body_plain "provider" _ eq_refl). cbn [Json.and_then].
  rewrite Encoding.skip_space_nonspace by reflexivity.
  change (code ":" =? 58)%N with true. cbv beta iota.
  subst f2.
  rewrite (Encoding.parse_plain_string (S fuel) _ (ResultProvider r) _ Hname).
  cbn [Json.and_then].
  rewrite Encoding.skip_space_nonspace by reflexivity.
  change (code "," =? 44)%N with true. cbv beta iota.
  set (f1 := S fuel). cbn [Json.parse].
  rewrite Encoding.skip_space_nonspace by reflexivity.
  change (code dq =? code dq)%N with true. cbv beta iota.
  rewrite (Encoding.string_body_plain "isValid" _ eq_refl). cbn [Json.and_then].
  rewrite Encoding.skip_space_nonspace by reflexivity.
  change (code ":" =? 58)%N with true. cbv beta iota.
  subst f1. rewrite parse_bool. cbn [Json.and_then].
  rewrite Encoding.skip_space_nonspace by reflexivity.
  reflexivity.
Qed.

Lemma join_cons (sep p : string) (l : list string) (rest : string) :
  join sep (p :: l) +:+ rest
  = p +:+ match l with
          | [] => rest
          | _ :: _ => sep +:+ join sep l +:+ rest
          end.
Proof. destruct l; [reflexivity |]. cbn [join]. now rewrite !Encoding.append_assoc. Qed.

Lemma parse_elements (rs : list BankAccountValidationResult) :
  forall (r : BankAccountValidationResult) (fuel : nat) (depth : N) (rest : string),
    Forall (fun r => plain (ResultProvider r) = true) (r :: rs) ->
    (Json.maxNestingDepth <=? depth)%N = false ->
    Json.parse (length (r :: rs) + 4 + fuel) depth Json.Elements
      (join "," (map Marshal_result (r :: rs)) +:+ String "]" rest)
    = Json.Scanned (Json.Array (map result_value (r :: rs))) rest.
Proof.
  induction rs as [|r' rs IH]; intros r fuel depth rest Hplain Hdepth;
    apply Forall_cons in Hplain as [Hr Hrs].
  - cbn [map join length Nat.add]. set (inner := S (S (S (S fuel)))).
    cbn [Json.parse]. subst inner.
    rewrite (parse_result fuel depth r _ Hr Hdepth). cbn [Json.and_then].
    rewrite Encoding.skip_space_nonspace by reflexivity.
    reflexivity.
  - cbn [map]. rewrite join_cons. cbn [length Nat.add].
    set (inner := length rs + 4 + fuel).
    change (S (S inner)) with (S (length (r' :: rs) + 4 + fuel)).
    assert (Hinner : length (r' :: rs) + 4 + fuel = S (S (S (S (length rs + 1 + fuel)))))
      by (cbn [length]; lia).
    set (whole := length (r' :: rs) + 4 + fuel) in *.
    cbn [Json.parse].
    rewrite Hinner at 1.
    rewrite (parse_result _ depth r _ Hr Hdepth). cbn [Json.and_then].
    rewrite Encoding.append_cons, Encoding.append_nil_l.
    rewrite Encoding.skip_space_nonspace by reflexivity.
    change (code "," =? 44)%N with true. cbv beta iota.
    subst whole. change (Marshal_result r' :: map Marshal_result rs)
      with (map Marshal_result (r' :: rs)).
    rewrite (IH r' fuel depth rest Hrs Hdepth). reflexivity.
Qed.

Lemma string_length_append (a b : string) :
  String.length (a +:+ b) = String.length a + String.length b.
Proof. induction a as [|c a IH]; [reflexivity |]. cbn [String.length]. rewrite Encoding.append_cons. cbn [String.length]. now rewrite IH. Qed.

Lemma join_length (rs : list BankAccountValidationResult) :
  length rs <= String.length (join "," (map Marshal_result rs)).
Proof.
  induction rs as [|r rs IH]; [reflexivity |].
  cbn [map]. rewrite <- (Encoding.append_nil_l (join _ _)) at 1.
  assert (H : forall p l, String.length (join "," (p :: l))
                          >= String.length p + String.length (join "," l)).
  { intros p [|q l]; cbn [join]; [cbn [String.length]; lia |].
    rewrite !string_length_append. lia. }
  specialize (H (Marshal_result r) (map Marshal_result rs)).
  assert (Hone : 1 <= String.length (Marshal_result r)).
  { unfold Marshal_result. rewrite Encoding.append_cons. cbn [String.length]. lia. }
  rewrite Encoding.append_nil_l. cbn [length]. lia.
Qed.

Lemma Marshal_result_html_safe (r : BankAccountValidationResult) :
  plain (ResultProvider r) = true -> html_safe (Marshal_result r) = true.
Proof.
  intros Hr. unfold Marshal_result, Json.encode_string, quoted.
  rewrite (Requests.escape_body_plain _ Hr).
  rewrite !Requests.html_safe_app. cbn [html_safe].
  rewrite !Requests.html_safe_app.
  rewrite (Requests.plain_html_safe _ Hr).
  destruct (IsValid r); reflexivity.
Qed.

Lemma join_html_safe (rs : list BankAccountValidationResult) :
  Forall (fun r => plain (ResultProvider r) = true) rs ->
  html_safe (join "," (map Marshal_result rs)) = true.
Proof.
  induction rs as [|r rs IH]; intros Hplain; [reflexivity |].
  apply Forall_cons in Hplain as [Hr Hrs]. cbn [map].
  rewrite <- (Encoding.append_nil_l (join _ _)).
  assert (H : forall p l, html_safe p = true -> html_safe (join "," l) = true ->
                          html_safe (join "," (p :: l)) = true).
  { intros p [|q l] Hp Hl; cbn [join]; [exact Hp |].
    rewrite !Requests.html_safe_app, Hp. cbn [join] in Hl. now rewrite Hl. }
  rewrite Encoding.append_nil_l.
  apply H; [now apply Marshal_result_html_safe | now apply IH].
Qed.

(** The text of a response whose provider names are plain is left alone by
    [json.HTMLEscape] and parses to the response's value. *)
Lemma Marshal_response_parses (response : BankAccountValidationResponse) :
  Forall (fun r => plain (ResultProvider r) = true) (Result response) ->
  Json.parse_text (Json.HTMLEscape (fst (Marshal_response response)))
  = Some (response_value response).
Proof.
  intros Hplain. destruct response as [rs]. cbn [Result] in Hplain.
  unfold Marshal_response, response_value. cbn [fst Result].
  rewrite Requests.HTMLEscape_safe.
  2:{ rewrite !Requests.html_safe_app, (join_html_safe rs Hplain). reflexivity. }
  unfold Json.parse_text.
  set (text := "{" +:+ _).
  assert (Hlen : length rs + 3 <= String.length text).
  { subst text. rewrite !string_length_append.
    pose proof (join_length rs). cbn [String.length]. lia. }
  assert (Hfuel : 2 * String.length text + 2
                  = S (S (S (length rs + 4 + (2 * String.length text - length rs - 5)))))
    by lia.
  rewrite Hfuel. clear Hfuel Hlen.
  set (spare := 2 * String.length text - length rs - 5). clearbody spare.
  subst text. unfold Json.encode_string.
  replace (Json.escape_body 0 "result") with "result" by (vm_compute; reflexivity).
  rewrite Encoding.quoted_append.
  change ("{" +:+ String dq ("result" +:+ String dq
            (":[" +:+ join "," (map Marshal_result rs) +:+ "]}")))
    with (String "{" (String dq ("result" +:+ String dq (String ":" (String "["
            (join "," (map Marshal_result rs) +:+ "]}")))))).
  set (f2 := S (S (length rs + 4 + spare))). cbn [Json.parse].
  rewrite Encoding.skip_space_nonspace by reflexivity.
  change (code "{" =? 123)%N with true. cbv beta iota.
  change (Json.maxNestingDepth <=? 0)%N with false. cbv beta iota.
  rewrite Encoding.skip_space_nonspace by reflexivity.
  change (code dq =? 125)%N with false. cbv beta iota.
  subst f2. set (f1 := S (length rs + 4 + spare)). cbn [Json.parse].
  rewrite Encoding.skip_space_nonspace by reflexivity.
  change (code dq =? code dq)%N with true. cbv beta iota.
  rewrite (Encoding.string_body_plain "result" _ eq_refl). cbn [Json.and_then].
  rewrite Encoding.skip_space_nonspace by reflexivity.
  change (code ":" =? 58)%N with true. cbv beta iota.
  subst f1. set (f0 := length rs + 4 + spare). cbn [Json.parse].
  rewrite Encoding.skip_space_nonspace by reflexivity.
  change (code "[" =? 123)%N with false. change (code "[" =? 91)%N with true.
  cbv beta iota.
  change (Json.maxNestingDepth <=? 0 + 1)%N with false. cbv beta iota.
  subst f0. destruct rs as [|r rs].
  - cbn [map join]. rewrite Encoding.append_nil_l.
    rewrite Encoding.skip_space_nonspace by reflexivity.
    change (code "]" =? 93)%N with true. cbv beta iota. cbn [Json.and_then].
    rewrite Encoding.skip_space_nonspace by reflexivity.
    reflexivity.
  - assert (Hhead : exists tail,
               join "," (map Marshal_result (r :: rs)) +:+ "]}" = String "{" tail).
    { cbn [map]. rewrite join_cons. unfold Marshal_result.
      rewrite Encoding.append_cons. eauto. }
    destruct Hhead as [tail Hhead]. rewrite Hhead.
    rewrite Encoding.skip_space_nonspace by reflexivity.
    change (code "{" =? 93)%N with false. cbv beta iota. rewrite <- Hhead.
    change "]}" with (String "]" "}").
    rewrite (parse_elements rs r spare (0 + 1 + 1)%N "}" Hplain eq_refl).
    cbn [Json.and_then].
    rewrite Encoding.skip_space_nonspace by reflexivity.
    reflexivity.
Qed.

(** What a client reads back. Let the configured provider names be plain
    (printable ASCII without the double quote, the backslash and the three
    HTML-sensitive characters). Whenever [Handler] returns for an accepted
    request, the body of its response is a JSON text, and parsing it gives
    an object whose only member [result] is an array with one object
    [{provider, isValid}] for each outcome that the calls of the selected
    providers sent, in some order: marshalling followed by
    [json.HTMLEscape] loses nothing. *)
Theorem Handler_body_reads_back
    (config : Config) (request : Request) (world : nat -> transport)
    (accountNumber : string) (filter : option (list string))
    (schedule : list action) (response : Response) (err : option go_error) :
  unmarshalRequest request
  = Returns (Some {| AccountNumber := Some accountNumber;
                     RequestProviders := filter |}, None) ->
  Forall (fun p => plain (Name p) = true) (Providers config) ->
  Handler config request world schedule = Returns (response, err) ->
  exists results,
    Json.parse_text (Body response)
    = Some (response_value {| Result := results |})
    /\ Permutation results
         (delivered accountNumber (providersToCall (Providers config) filter)
            world).
Proof.
  intros Hu Hplain. rewrite (Requests.Handler_accepted _ _ _ _ _ _ Hu).
  set (selected := providersToCall (Providers config) filter).
  destruct (checkProviders accountNumber selected world schedule)
    as [[results]| |] eqn:Hc; try discriminate.
  intros Hreply.
  assert (Hbody : Json.HTMLEscape (fst (Marshal_response {| Result := results |}))
                  = Body response).
  { exact (f_equal (fun o => match o with
                             | Returns (x, _) => Body x
                             | _ => EmptyString
                             end) Hreply). }
  rewrite <- Hbody. clear Hreply Hbody.
  pose proof (Aggregator.returned_delivered _ _ _ _ _ Hc) as Hperm.
  cbn [Result] in Hperm.
  exists results. split; [| exact Hperm].
  apply Marshal_response_parses. cbn [Result]. rewrite Hperm.
  apply Forall_forall. intros r Hr.
  apply Aggregator.delivered_elem in Hr as (i & p & Hi & Hcall).
  rewrite (Client.checkProvider_name _ _ _ _ Hcall).
  assert (Hp : p ∈ selected) by (eapply list_elem_of_lookup_2; exact Hi).
  assert (Hin : p ∈ Providers config).
  { subst selected. destruct filter as [names|]; [| exact Hp].
    now apply Registry.providersToCall_elem in Hp. }
  exact (proj1 (Forall_forall _ _) Hplain p Hin).
Qed.

Lemma Handler_body_reads_back_witness :
  unmarshalRequest {| RequestBody := empty_account_body |}
  = Returns (Some {| AccountNumber := Some EmptyString;
                     RequestProviders := None |}, None)
  /\ Forall (fun p => plain (Name p) = true)
       (Providers {| Providers := [provider1; provider2] |})
  /\ exists response,
       Handler {| Providers := [provider1; provider2] |}
         {| RequestBody := empty_account_body |} refusing (in_order 2)
       = Returns (response, None)
       /\ exists results,
            Json.parse_text (Body response)
            = Some (response_value {| Result := results |})
            /\ Permutation results
                 (delivered EmptyString
                    (providersToCall
                       (Providers {| Providers := [provider1; provider2] |}) None)
                    refusing).
Proof.
  assert (Hu : unmarshalRequest {| RequestBody := empty_account_body |}
               = Returns (Some {| AccountNumber := Some EmptyString;
                                  RequestProviders := None |}, None))
    by (vm_compute; reflexivity).
  assert (Hplain : Forall (fun p => plain (Name p) = true)
                     (Providers {| Providers := [provider1; provider2] |}))
    by (repeat constructor).
  split; [exact Hu |]. split; [exact Hplain |].
  pose proof (Runs.checkProviders_in_order_run EmptyString [provider1; provider2]
                refusing (Aggregator.answers_refusing _ _)) as Hrun.
  assert (Hh : Handler {| Providers := [provider1; provider2] |}
                 {| RequestBody := empty_account_body |} refusing (in_order 2)
               = reply (Returns {| Result := delivered EmptyString
                                               [provider1; provider2] refusing |})).
  { rewrite (Requests.Handler_accepted _ _ _ _ _ _ Hu). cbn [Providers providersToCall].
    cbn [length] in Hrun. now rewrite Hrun. }
  cbn [reply] in Hh. eexists. split; [exact Hh |].
  exact (Handler_body_reads_back {| Providers := [provider1; provider2] |}
           {| RequestBody := empty_account_body |} refusing EmptyString None
           (in_order 2) _ None Hu Hplain Hh).
Defined.

End Decoding.
